(** * ConsVision watershed model: the scoring scripts, embedded and verified

    The scripts under [WtrshdMod_Scripts] drive a GIS engine; what they
    compute themselves are a few piecewise-linear score functions and one
    batch loop with per-record recovery.  This development embeds those
    parts and proves the properties the specification states about them.

    Numbers.  The script parameters, table values and raster cells are
    Python / raster doubles.  A finite double is held by the rational
    [Q] it denotes, and equalities between scores are stated with [==]
    (equality of rationals).  The raster scripts and the structural
    facts (which branch is taken, what is raised, what is NoData) are
    stated with exact arithmetic, which rounds nothing.  Where a claim
    depends on the value a Python expression returns, the expression is
    evaluated as the interpreter does, every operation rounded to the
    nearest double (module [Double]).  Division is Python's: a zero
    divisor raises [ZeroDivisionError]. *)

From Stdlib Require Import QArith Qabs Qminmax Qround Qpower ZArith.
From Stdlib Require Import List Bool String DecimalString Lia Lqa.
Import ListNotations.
Open Scope Q_scope.

(** ** Python values, exceptions and the built-ins the scripts call *)

Module Py.

Inductive exn : Type :=
| ZeroDivisionError
| TypeError
| ValueError
| NameError
| ExecuteError.   (* arcpy.ExecuteError: a geoprocessing call failed *)

Inductive result (A : Type) : Type :=
| Ok (a : A)
| Raise (e : exn).
Arguments Ok {A} a.
Arguments Raise {A} e.

Definition bind {A B : Type} (m : result A) (k : A -> result B) : result B :=
  match m with
  | Ok a => k a
  | Raise e => Raise e
  end.

(** A field or parameter value: [None] (a null in the table) or a number. *)
Inductive value : Type :=
| PyNone
| PyNum (q : Q).

(** The call returned the number [q]. *)
Definition yields (r : result value) (q : Q) : Prop :=
  exists c, r = Ok (PyNum c) /\ c == q.

Definition leb (a b : Q) : bool := Qle_bool a b.
Definition ltb (a b : Q) : bool := negb (leb b a).

(** [a / b] with its exception: a zero divisor raises.  The quotient is
    the exact one; [Double.div] is the same operation with the quotient
    rounded to the nearest double. *)
Definition div (a b : Q) : result Q :=
  if Qeq_bool b 0 then Raise ZeroDivisionError else Ok (a / b).

(** [float(v)]: [float(None)] is a [TypeError]. *)
Definition float (v : value) : result Q :=
  match v with
  | PyNum q => Ok q
  | PyNone => Raise TypeError
  end.

(** [int(v)] truncates towards zero; [int(None)] is a [TypeError]. *)
Definition trunc (q : Q) : Z :=
  if Qle_bool 0 q then Qfloor q else Qceiling q.

Definition int (v : value) : result Z :=
  match v with
  | PyNum q => Ok (trunc q)
  | PyNone => Raise TypeError
  end.

End Py.

Import Py.

Declare Scope py_scope.
Delimit Scope py_scope with py.
Notation "x <- m ;; k" := (Py.bind m (fun x => k))
  (at level 61, m at next level, right associativity) : py_scope.
Open Scope py_scope.

(** ** Map algebra (arcpy.sa), cell by cell

    A raster is its grid of cells, a cell holding a number or NoData
    ([None]).  All rasters of one script run share the grid of the
    environment (extent and snap raster), so a raster is a function from
    the cell index.  The operators below are the local (cell-wise)
    Spatial Analyst operators the scripts use: NoData in any operand
    gives NoData, except in [CellStatistics] with the "DATA" option,
    which ignores NoData operands. *)

Module MapAlgebra.

Definition cell : Type := option Q.
Definition raster : Type := nat -> cell.
(** The result of a relational operator: 1, 0 or NoData in each cell. *)
Definition braster : Type := nat -> option bool.

Definition const (q : Q) : raster := fun _ => Some q.

(** [r <= x], [r >= x], [r < x] against a number. *)
Definition le_ (r : raster) (x : Q) : braster :=
  fun i => option_map (fun v => Py.leb v x) (r i).
Definition ge_ (r : raster) (x : Q) : braster :=
  fun i => option_map (fun v => Py.leb x v) (r i).
Definition lt_ (r : raster) (x : Q) : braster :=
  fun i => option_map (fun v => Py.ltb v x) (r i).

Definition lift2 (f : bool -> bool -> bool) (a b : braster) : braster :=
  fun i => match a i, b i with
           | Some x, Some y => Some (f x y)
           | _, _ => None
           end.
(** [a | b] and [a & b] on boolean rasters. *)
Definition or_ : braster -> braster -> braster := lift2 orb.
Definition and_ : braster -> braster -> braster := lift2 andb.

(** [s * r], [r + c], [r / c] with a number. *)
Definition scale (s : Q) (r : raster) : raster :=
  fun i => option_map (fun v => s * v) (r i).
Definition shift (r : raster) (c : Q) : raster :=
  fun i => option_map (fun v => v + c) (r i).
Definition over (r : raster) (c : Q) : raster :=
  fun i => option_map (fun v => v / c) (r i).

(** [Con(cond, t, f)]: [t] where the condition is true, [f] where it is
    false, NoData where the condition is NoData. *)
Definition Con (c : braster) (t f : raster) : raster :=
  fun i => match c i with
           | Some true => t i
           | Some false => f i
           | None => None
           end.

(** [IsNull(r)]: 1 where [r] is NoData, 0 elsewhere; never NoData. *)
Definition IsNull (r : raster) : braster :=
  fun i => match r i with None => Some true | Some _ => Some false end.

Inductive statistic : Type := MAXIMUM | SUM | MEAN.

(** The values of the cell [i] in the rasters that have data there. *)
Definition data_at (rs : list raster) (i : nat) : list Q :=
  flat_map (fun r => match r i with Some v => [v] | None => [] end) rs.

Definition stat_of (st : statistic) (v : Q) (vs : list Q) : Q :=
  match st with
  | MAXIMUM => fold_left Qmax vs v
  | SUM => fold_left Qplus vs v
  | MEAN => fold_left Qplus vs v / inject_Z (Z.of_nat (S (List.length vs)))
  end.

(** [CellStatistics(rs, st, "DATA")]. *)
Definition CellStatistics (rs : list raster) (st : statistic) : raster :=
  fun i => match data_at rs i with
           | [] => None
           | v :: vs => Some (stat_of st v vs)
           end.

(** The cell [i] of the script's output holds the number [q]. *)
Definition cell_is (out : result raster) (i : nat) (q : Q) : Prop :=
  exists r c, out = Ok r /\ r i = Some c /\ c == q.

(** A computed cell holds the number [q]. *)
Definition returns (out : result cell) (q : Q) : Prop :=
  exists c, out = Ok (Some c) /\ c == q.

End MapAlgebra.

Import MapAlgebra.

(** ** GetIntegLinearTrunc.py *)

Module GetIntegLinearTrunc.

(** Lines 66-79.  [in_Integ] is the integrity raster, [Y], [X1], [X2]
    the tool parameters.  The temporary raster [Rast] is saved to the
    scratch workspace only for inspection; the output is [outRast]. *)
Definition outRast (in_Integ : raster) (Y X1 X2 : Q) : result raster :=
  Slope <- Py.div (100 - Y) (X2 - X1) ;;
  let Intercept := 100 - Slope * X2 in
  let Rast := shift (scale Slope in_Integ) Intercept in
  let Integ := in_Integ in
  Ok (Con (le_ Integ X1) (const 50) (Con (ge_ Integ X2) (const 100) Rast)).

(** [score(value, Y, X1, X2)]: the output cell for an input cell that
    holds [value]. *)
Definition score (value Y X1 X2 : Q) : result cell :=
  r <- outRast (const value) Y X1 X2 ;;
  Ok (r 0%nat).

End GetIntegLinearTrunc.

(** ** GetIntegMultHumpLinear.py *)

Module GetIntegMultHumpLinear.

(** Lines 70-92: two slopes, two intercepts, and the nested [Con]. *)
Definition outRast (in_Integ : raster) (Y X1 X2 X3 X4 : Q) : result raster :=
  Slope1 <- Py.div (100 - Y) (X2 - X1) ;;
  let Int1 := 100 - Slope1 * X2 in
  Slope2 <- Py.div (100 - Y) (X3 - X4) ;;
  let Int2 := 100 - Slope2 * X3 in
  let Rast1 := shift (scale Slope1 in_Integ) Int1 in
  let Rast2 := shift (scale Slope2 in_Integ) Int2 in
  let Integ := in_Integ in
  Ok (Con (or_ (le_ Integ X1) (ge_ Integ X4)) (const 50)
        (Con (and_ (ge_ Integ X2) (le_ Integ X3)) (const 100)
           (Con (lt_ Integ X2) Rast1 Rast2))).

End GetIntegMultHumpLinear.

(** ** KfactToScores.py and mibiToScores.py: the positive range scorer *)

Module KfactToScores.

Definition cMin : Q := 0.
Definition cMax : Q := 0.55.

(** The code block handed to CalculateField (lines 51-58).  Each
    [float(kF)] is evaluated where the source evaluates it. *)
Definition outScore (kF : value) (minThresh maxThresh : Q) : result value :=
  a <- Py.float kF ;;
  if Py.ltb a minThresh then Ok (PyNum 0)
  else
    b <- Py.float kF ;;
    if Py.ltb maxThresh b then Ok (PyNum 100)
    else
      c <- Py.float kF ;;
      score <- Py.div (100 * (c - minThresh)) (maxThresh - minThresh) ;;
      Ok (PyNum score).

End KfactToScores.

Module mibiToScores.

Definition cMin : Q := 8.
Definition cMax : Q := 24.

(** The code block is the one of KfactToScores.py with the argument
    renamed. *)
Definition outScore (mibi : value) (minThresh maxThresh : Q) : result value :=
  KfactToScores.outScore mibi minThresh maxThresh.

End mibiToScores.

(** ** RescalePollutantsToScores.py: the negative range scorer *)

Module RescalePollutantsToScores.

(** [round(q)] to the nearest integer, ties to even. *)
Definition round_half_even (q : Q) : Z :=
  let f := Qfloor q in
  let d := q - inject_Z f in
  if Py.ltb d (1 # 2) then f
  else if Py.ltb (1 # 2) d then (f + 1)%Z
  else if Z.even f then f else (f + 1)%Z.

(** Brings [m] into [10^11, 10^12), counting the decimal shifts. *)
Fixpoint normalise (fuel : nat) (m : Q) (k : Z) : Q * Z :=
  match fuel with
  | O => (m, k)
  | S n =>
      if Py.ltb m (inject_Z (10 ^ 11)) then normalise n (m * 10) (k + 1)
      else if Py.leb (inject_Z (10 ^ 12)) m then normalise n (m / 10) (k - 1)
      else (m, k)
  end.

(** The thresholds reach the code block through the expression text,
    ["outScore(!%s!,%s, %s)" % (fld, cMin, cMax)] (line 58).  ['%s'] of
    a float is [str], which in Python 2.7 prints 12 significant digits
    (the format '%.12g'); [str_float q] is the number that text denotes. *)
Definition str_float (q : Q) : Q :=
  if Qeq_bool q 0 then 0
  else
    let fuel := (40 + Z.to_nat (Z.log2 (Z.abs (Qnum q)))
                 + Z.to_nat (Z.log2 (Zpos (Qden q))))%nat in
    let '(m, k) := normalise fuel (Qabs q) 0 in
    let n := inject_Z (round_half_even m) in
    (if Py.ltb q 0 then - n else n) / Qpower 10 k.

(** [filter(lambda a: a != None, vals)] (line 52). *)
Definition not_None (vals : list value) : list Q :=
  flat_map (fun a => match a with PyNum q => [q] | PyNone => [] end) vals.

(** The built-ins [min] and [max] on a list: the first smallest
    (largest) item; an empty list raises [ValueError]. *)
Definition min (vals : list Q) : result Q :=
  match vals with
  | [] => Raise ValueError
  | x :: rest => Ok (fold_left (fun m y => if Py.ltb y m then y else m) rest x)
  end.

Definition max (vals : list Q) : result Q :=
  match vals with
  | [] => Raise ValueError
  | x :: rest => Ok (fold_left (fun m y => if Py.ltb m y then y else m) rest x)
  end.

(** Lines 49-58: the thresholds written into the expression for the
    column [vals]. *)
Definition thresholds (vals : list value) : result (Q * Q) :=
  let vals := not_None vals in
  cMin <- min vals ;;
  cMax <- max vals ;;
  Ok (str_float cMin, str_float cMax).

(** The code block (lines 59-68). *)
Definition outScore (coeff : value) (minThresh maxThresh : Q) : result value :=
  match coeff with
  | PyNone => Ok PyNone
  | PyNum c =>
      if Py.ltb c minThresh then Ok (PyNum 100)
      else if Py.ltb maxThresh c then Ok (PyNum 0)
      else
        score <- Py.div (100 * (maxThresh - c)) (maxThresh - minThresh) ;;
        Ok (PyNum score)
  end.

(** The score CalculateField computes for one row of the column. *)
Definition row_score (vals : list value) (coeff : value) : result value :=
  t <- thresholds vals ;;
  outScore coeff (fst t) (snd t).

End RescalePollutantsToScores.

(** ** Doubles

    The scorers above divide and multiply exactly.  What the interpreter
    computes are IEEE 754 binary64 numbers: every arithmetic operation
    returns the double nearest to the exact result (ties to even), or an
    infinity when that is out of range.  A finite double is held by the
    rational it denotes; an operation that leaves the finite doubles
    gives [None], and nothing is said about what the code does after
    that. *)

Module Double.

(** For [q > 0]: the exponent [e] with [2^e <= q < 2^(e+1)]. *)
Definition ilog2 (q : Q) : Z :=
  let k := (Z.log2 (Qnum q) - Z.log2 (Zpos (Qden q)))%Z in
  if Py.leb (2 ^ k) q then k else (k - 1)%Z.

(** The smallest exponent of a normal double. *)
Definition emin : Z := (-1022)%Z.

(** The exponent of the spacing of the doubles around [q]: 52 binary
    places below the leading one, and never below [2^-1074]. *)
Definition ulp_exp (q : Q) : Z := (Z.max (ilog2 (Qabs q)) emin - 52)%Z.

(** The nearest multiple of that spacing, ties to even. *)
Definition round64 (q : Q) : Q :=
  let t := ulp_exp q in
  inject_Z (RescalePollutantsToScores.round_half_even (q / 2 ^ t)) * 2 ^ t.

(** The largest finite double, [(2^53 - 1) * 2^971]. *)
Definition max_double : Q := inject_Z (2 ^ 53 - 1) * 2 ^ 971.

(** The double returned for the exact result [q]; [None] for an
    infinity. *)
Definition fl (q : Q) : option Q :=
  let r := round64 q in
  if Py.leb (Qabs r) max_double then Some r else None.

(** [q] is a finite double. *)
Definition is_double (q : Q) : Prop :=
  round64 q == q /\ Qabs q <= max_double.

(** A computation on doubles: a result, a raised exception, or [None]
    once an intermediate value is not finite. *)
Definition comp (A : Type) : Type := option (result A).

Definition bind {A B : Type} (m : comp A) (k : A -> comp B) : comp B :=
  match m with
  | Some (Ok a) => k a
  | Some (Raise e) => Some (Raise e)
  | None => None
  end.

Definition sub (a b : Q) : comp Q := option_map Ok (fl (a - b)).
Definition mul (a b : Q) : comp Q := option_map Ok (fl (a * b)).
(** [a / b]: a zero divisor raises, as for exact numbers. *)
Definition div (a b : Q) : comp Q :=
  if Qeq_bool b 0 then Some (Raise ZeroDivisionError)
  else option_map Ok (fl (a / b)).

(** The computation returned the number [q]. *)
Definition gives (r : comp value) (q : Q) : Prop :=
  exists c, r = Some (Ok (PyNum c)) /\ c == q.

End Double.

Declare Scope double_scope.
Delimit Scope double_scope with double.
Notation "x <- m ;; k" := (Double.bind m (fun x => k))
  (at level 61, m at next level, right associativity) : double_scope.

(** The code block of KfactToScores.py and mibiToScores.py on doubles. *)
Module KfactToScores64.

Definition outScore (kF : value) (minThresh maxThresh : Q)
    : Double.comp value :=
  (a <- Some (Py.float kF) ;;
   if Py.ltb a minThresh then Some (Ok (PyNum 0))
   else
     b <- Some (Py.float kF) ;;
     if Py.ltb maxThresh b then Some (Ok (PyNum 100))
     else
       c <- Some (Py.float kF) ;;
       x <- Double.sub c minThresh ;;
       y <- Double.mul 100 x ;;
       d <- Double.sub maxThresh minThresh ;;
       score <- Double.div y d ;;
       Some (Ok (PyNum score)))%double.

End KfactToScores64.

(** The code block of RescalePollutantsToScores.py on doubles. *)
Module RescalePollutantsToScores64.

Definition outScore (coeff : value) (minThresh maxThresh : Q)
    : Double.comp value :=
  match coeff with
  | PyNone => Some (Ok PyNone)
  | PyNum c =>
      if Py.ltb c minThresh then Some (Ok (PyNum 100))
      else if Py.ltb maxThresh c then Some (Ok (PyNum 0))
      else
        (x <- Double.sub maxThresh c ;;
         y <- Double.mul 100 x ;;
         d <- Double.sub maxThresh minThresh ;;
         score <- Double.div y d ;;
         Some (Ok (PyNum score)))%double
  end.

(** The thresholds as the code block receives them: the numbers printed
    into the expression text (line 58), read back as doubles. *)
Definition thresholds (vals : list value) : result (Q * Q) :=
  t <- RescalePollutantsToScores.thresholds vals ;;
  Ok (Double.round64 (fst t), Double.round64 (snd t)).

(** The score CalculateField computes for one row of the column. *)
Definition row_score (vals : list value) (coeff : value)
    : Double.comp value :=
  (t <- Some (thresholds vals) ;;
   outScore coeff (fst t) (snd t))%double.

End RescalePollutantsToScores64.

(** ** GetSurfaceWaterScore.py: the per-point aggregation loop *)

Module GetSurfaceWaterScore.

(** Where a dataset lives: under the workspace of the requested output
    ([myWorkspace]), in the scratch geodatabase ([outScratchKeep]) or
    in the "in_memory" workspace ([outScratch]). *)
Inductive path : Type :=
| InWorkspace (name : string)
| InScratchKeep (name : string)
| InMemory (name : string).

Definition path_eqb (p q : path) : bool :=
  match p, q with
  | InWorkspace a, InWorkspace b => String.eqb a b
  | InScratchKeep a, InScratchKeep b => String.eqb a b
  | InMemory a, InMemory b => String.eqb a b
  | _, _ => false
  end.

(** The raster datasets on disk and in memory. *)
Definition store : Type := path -> option raster.

Definition write (p : path) (r : raster) (d : store) : store :=
  fun q => if path_eqb q p then Some r else d q.

(** One row of the source-point cursor, [myPt], with what the GIS
    engine answers for it: [gis_eucDist] is the outcome of lines
    139-157 (select the point and its zone, buffer, append, rasterize,
    Euclidean distance), a distance raster or a raised error. *)
Record point : Type := {
  ptID : value;                 (* myPt[0] *)
  ptPop : value;                (* myPt[1] *)
  gis_eucDist : result raster
}.

(** The inputs of one run. *)
Record env : Type := {
  out_fname : string;               (* file name of out_swScore *)
  snapRast : raster;                (* Raster(in_Snap) *)
  swPts : result (list point);      (* lines 104 and 116 *)
  datasets0 : store;                (* datasets present before the run *)
  writable : path -> bool           (* does saving to this path succeed? *)
}.

(** The variables of the script that the loop updates.  A [Raster]
    object bound to a saved dataset is held by its cells: the dataset
    behind [RunningMax] ([RunningSum]) is rewritten only on line 171
    (179), and the variable is rebound to it on the next line. *)
Record state : Type := {
  data : store;
  RunningMax : raster;
  RunningSum : raster;
  myFailList : list string;
  failLog : option (list string)    (* rows of the file myFailLog *)
}.

(** Statements: they read and update the state and may raise; what was
    done before an exception stays done. *)
Definition M (A : Type) : Type := state -> state * result A.

Definition ret {A : Type} (a : A) : M A := fun s => (s, Ok a).
Definition raise {A : Type} (e : exn) : M A := fun s => (s, Raise e).
Definition lift {A : Type} (r : result A) : M A := fun s => (s, r).

Definition seq {A B : Type} (m : M A) (k : A -> M B) : M B :=
  fun s => match m s with
           | (s', Ok a) => k a s'
           | (s', Raise e) => (s', Raise e)
           end.

(** [try: body  except: handler] (a bare [except] catches everything). *)
Definition try_except {A : Type} (body handler : M A) : M A :=
  fun s => match body s with
           | (s', Ok a) => (s', Ok a)
           | (s', Raise _) => handler s'
           end.

Definition get {A : Type} (f : state -> A) : M A := fun s => (s, Ok (f s)).

Notation "x <~ m ;; k" := (seq m (fun x => k))
  (at level 61, m at next level, right associativity).
Notation "m ;;; k" := (seq m (fun _ => k))
  (at level 61, right associativity).

Definition set_data (d : store) (s : state) : state :=
  {| data := d; RunningMax := RunningMax s; RunningSum := RunningSum s;
     myFailList := myFailList s; failLog := failLog s |}.
Definition set_RunningMax (r : raster) : M unit :=
  fun s => ({| data := data s; RunningMax := r; RunningSum := RunningSum s;
               myFailList := myFailList s; failLog := failLog s |}, Ok tt).
Definition set_RunningSum (r : raster) : M unit :=
  fun s => ({| data := data s; RunningMax := RunningMax s; RunningSum := r;
               myFailList := myFailList s; failLog := failLog s |}, Ok tt).
Definition append_fail (x : string) : M unit :=
  fun s => ({| data := data s; RunningMax := RunningMax s;
               RunningSum := RunningSum s;
               myFailList := myFailList s ++ [x]; failLog := failLog s |}, Ok tt).
Definition write_failLog (rows : list string) : M unit :=
  fun s => ({| data := data s; RunningMax := RunningMax s;
               RunningSum := RunningSum s;
               myFailList := myFailList s; failLog := Some rows |}, Ok tt).

(** [r.save(p)]. *)
Definition save (w : env) (r : raster) (p : path) : M unit :=
  fun s => if writable w p then (set_data (write p r (data s)) s, Ok tt)
           else (s, Raise ExecuteError).

(** [Raster(p)], or a tool reading the dataset [p]. *)
Definition Raster (p : path) : M raster :=
  fun s => match data s p with
           | Some r => (s, Ok r)
           | None => (s, Raise ExecuteError)
           end.

(** [str(int(x))] as decimal text. *)
Definition str (n : Z) : string :=
  DecimalString.NilEmpty.string_of_int (Z.to_int n).

(** [r * v] with a field value: a null operand raises. *)
Definition times (r : raster) (v : value) : result raster :=
  match v with
  | PyNum q => Ok (scale q r)
  | PyNone => Raise TypeError
  end.

(** Modelled from the spec: the toolbox tools RasterValToScoreNeg and
    RasterValToScorePos (WtrshModTools.tbx is not among the sources).
    They are the range scorer of section 4.3 applied to every cell:
    negative polarity [value < min -> 100], [value > max -> 0], else
    [100*(max-value)/(max-min)]; positive polarity [value < min -> 0],
    [value > max -> 100], else [100*(value-min)/(max-min)]; NoData
    stays NoData; [min == max] is an error. *)
Definition score_neg (minT maxT v : Q) : Q :=
  if Py.ltb v minT then 100
  else if Py.ltb maxT v then 0
  else 100 * (maxT - v) / (maxT - minT).

Definition score_pos (minT maxT v : Q) : Q :=
  if Py.ltb v minT then 0
  else if Py.ltb maxT v then 100
  else 100 * (v - minT) / (maxT - minT).

Definition rescale (f : Q -> Q -> Q -> Q) (minT maxT : Q) (r : raster) : raster :=
  fun i => option_map (f minT maxT) (r i).

Definition RasterValToScore (f : Q -> Q -> Q -> Q) (w : env)
    (in_Rast : path) (minT maxT : Q) (out_Rast : path) : M unit :=
  r <~ Raster in_Rast ;;
  if Qeq_bool minT maxT then raise ExecuteError
  else save w (rescale f minT maxT r) out_Rast.

Definition RasterValToScoreNeg := RasterValToScore score_neg.
Definition RasterValToScorePos := RasterValToScore score_pos.


(** The dataset names (lines 90-96 and 128-135). *)
Definition zeroRast := InScratchKeep "zeroRast".
Definition maxRast := InScratchKeep "maxRast".
Definition sumRast := InScratchKeep "sumRast".
Definition tmpEucDist := InMemory "tmpEucDist".
Definition tmpScore := InMemory "tmpScore".
Definition tmpMax := InMemory "tmpMax".
Definition tmpSum := InMemory "tmpSum".

(** The body of the inner [try] (lines 120-183).  The analysis mask
    the body sets (lines 156 and 168, [arcpy.env.mask]) is not modelled:
    it turns cells outside the mask into NoData and changes neither
    which call raises nor which dataset is written.  The cell values of
    the running rasters are therefore those of an unmasked run. *)
Definition process (w : env) (myPt : point) : M unit :=
  let myID := ptID myPt in
  let myPop := ptPop myPt in
  _ <~ lift (Py.int myID) ;;                         (* line 125 *)
  _ <~ lift (Py.int myID) ;;                         (* line 139 *)
  eucDist <~ lift (gis_eucDist myPt) ;;              (* lines 140-157 *)
  save w eucDist tmpEucDist ;;;
  RasterValToScoreNeg w tmpEucDist 8046.72 80467.2 tmpScore ;;;
  (* Distance subscore *)
  score <~ Raster tmpScore ;;
  running <~ get RunningMax ;;
  let updateMaxScore := CellStatistics [score; running] MAXIMUM in
  save w updateMaxScore tmpMax ;;;
  save w updateMaxScore maxRast ;;;
  r <~ Raster maxRast ;;
  set_RunningMax r ;;;
  (* Density subscore *)
  score <~ Raster tmpScore ;;
  weighted <~ lift (times (over score 100) myPop) ;;
  running <~ get RunningSum ;;
  let updateSumScore := CellStatistics [weighted; running] SUM in
  save w updateSumScore tmpSum ;;;
  save w updateSumScore sumRast ;;;
  r <~ Raster sumRast ;;
  set_RunningSum r ;;;
  _ <~ lift (Py.int myID) ;;                         (* line 183 *)
  ret tt.

(** The inner [except] (lines 186-201): both uses of [str(int(myID))]. *)
Definition handler (myPt : point) : M unit :=
  let myID := ptID myPt in
  _ <~ lift (Py.int myID) ;;                         (* line 187 *)
  n <~ lift (Py.int myID) ;;                         (* line 188 *)
  append_fail (str n).

(** [for myPt in myPoints: try: ... except: ...] (lines 117-201). *)
Fixpoint for_myPoints (w : env) (myPoints : list point) : M unit :=
  match myPoints with
  | [] => ret tt
  | myPt :: rest =>
      try_except (process w myPt) (handler myPt) ;;;
      for_myPoints w rest
  end.

(** Lines 204-228: save the two running rasters and rescale the sum,
    each with its fall-back to the scratch geodatabase; the result is
    the pair of paths [swMaxScore], [swSumScore]. *)
Definition save_subscores (w : env) : M (path * path) :=
  running <~ get RunningMax ;;
  swMaxScore <~
    try_except
      (save w running (InWorkspace "swDistance_subscore") ;;;
       ret (InWorkspace "swDistance_subscore"))
      (save w running (InScratchKeep "swDistance_subscore") ;;;
       ret (InScratchKeep "swDistance_subscore")) ;;
  running <~ get RunningSum ;;
  swSum <~
    try_except
      (save w running (InWorkspace "swSum") ;;; ret (InWorkspace "swSum"))
      (save w running (InScratchKeep "swSum") ;;; ret (InScratchKeep "swSum")) ;;
  swSumScore <~
    try_except
      (RasterValToScorePos w swSum 1000 100000 (InWorkspace "swDensity_subscore") ;;;
       ret (InWorkspace "swDensity_subscore"))
      (RasterValToScorePos w swSum 1000 100000 (InScratchKeep "swDensity_subscore") ;;;
       ret (InScratchKeep "swDensity_subscore")) ;;
  ret (swMaxScore, swSumScore).

(** The name [RFinScore] is bound nowhere in the script, nor by
    [from arcpy.sa import *]: evaluating it raises [NameError]. *)
Definition RFinScore : M raster := raise NameError.

(** Lines 231-236. *)
Definition save_FinScore (w : env) (FinScore : raster) : M unit :=
  try_except
    (save w FinScore (InWorkspace (out_fname w)))
    (r <~ RFinScore ;; save w r (InScratchKeep "out_swScore")).

(** Lines 240-248. *)
Definition report_failures : M unit :=
  fails <~ get myFailList ;;
  match fails with
  | [] => ret tt
  | _ :: _ => write_failLog fails
  end.

(** Lines 106-113: the zero raster as baseline of both running scores. *)
Definition baseline (w : env) : M unit :=
  let zeros := Con (IsNull (snapRast w)) (const 0) (const 0) in
  set_RunningMax zeros ;;;
  set_RunningSum zeros ;;;
  save w zeros zeroRast.

(** Lines 99-230, up to the final mean raster [FinScore] (computed, like
    the loop body, without the analysis mask). *)
Definition upto_FinScore (w : env) : M raster :=
  myPoints <~ lift (swPts w) ;;                      (* lines 104, 116 *)
  baseline w ;;;
  for_myPoints w myPoints ;;;
  sub <~ save_subscores w ;;
  a <~ Raster (fst sub) ;;
  b <~ Raster (snd sub) ;;
  ret (CellStatistics [a; b] MEAN).

(** The outer [try] (lines 98-248).  A raised result is what the outer
    [except] (line 253) reports with [arcpy.AddError]. *)
Definition script (w : env) : M unit :=
  FinScore <~ upto_FinScore w ;;
  save_FinScore w FinScore ;;;
  report_failures.

(** The state at line 98: [myFailList = []] (line 70), no log file;
    the running rasters are bound by [baseline] before they are read. *)
Definition start (w : env) : state :=
  {| data := datasets0 w; RunningMax := const 0; RunningSum := const 0;
     myFailList := []; failLog := None |}.

Definition run (w : env) : state * result unit := script w (start w).

(** Whether the body of the inner [try] runs to its end for [myPt]: the
    identifier converts, the GIS steps answer, the population is not
    null and every save of the body succeeds. *)
Definition body_ok (w : env) (myPt : point) : bool :=
  match Py.int (ptID myPt), gis_eucDist myPt, ptPop myPt with
  | Ok _, Ok _, PyNum _ =>
      writable w tmpEucDist && writable w tmpScore && writable w tmpMax
      && writable w maxRast && writable w tmpSum && writable w sumRast
  | _, _, _ => false
  end.

(** The text [str(int(myID))] of a point whose identifier converts. *)
Definition id_text (myPt : point) : list string :=
  match Py.int (ptID myPt) with
  | Ok n => [str n]
  | Raise _ => []
  end.

(** Where a subscore named [name] ends up: in the workspace when saving
    there succeeds, in the scratch geodatabase otherwise. *)
Definition dest (w : env) (name : string) : path :=
  if writable w (InWorkspace name) then InWorkspace name
  else InScratchKeep name.

(** A statement [keeps] the path [p] when it leaves the dataset at [p]
    and the log file as they were; saving to [q] is [safe] for [p] when
    it cannot succeed or [q] is another path. *)
Definition keeps {A : Type} (p : path) (m : M A) : Prop :=
  forall s, data (fst (m s)) p = data s p /\ failLog (fst (m s)) = failLog s.

Definition safe (w : env) (p q : path) : Prop :=
  writable w q = false \/ path_eqb p q = false.

(** Sample inputs: source points and two environments, one where every
    save succeeds and one where the requested output cannot be saved. *)
Module Sample.

Definition pt_near : point :=
  {| ptID := PyNum 7; ptPop := PyNum 2500; gis_eucDist := Ok (const 0) |}.
Definition pt_badgeom : point :=
  {| ptID := PyNum 9; ptPop := PyNum 100;
     gis_eucDist := Raise ExecuteError |}.
Definition pt_nullpop : point :=
  {| ptID := PyNum 8; ptPop := PyNone; gis_eucDist := Ok (const 0) |}.
Definition pt_nullid : point :=
  {| ptID := PyNone; ptPop := PyNum 100; gis_eucDist := Ok (const 0) |}.

Definition w_ok (pts : list point) : env :=
  {| out_fname := "swScore"; snapRast := const 1; swPts := Ok pts;
     datasets0 := fun _ => None; writable := fun _ => true |}.

Definition w_locked (pts : list point) : env :=
  {| out_fname := "swScore"; snapRast := const 1; swPts := Ok pts;
     datasets0 := fun _ => None;
     writable := fun p => negb (path_eqb p (InWorkspace "swScore")) |}.

End Sample.

End GetSurfaceWaterScore.

(** ** HydroRaster.py: combining the burn rasters *)

Module HydroRaster.

(** Lines 122-123: [CellStatistics(Feats2Burn, "MAXIMUM", "DATA")] of the
    rasterized lines, polygons and polygon centroids. *)
Definition HydroRaster (lineburnRD polyburnRD cntrburnRD : raster) : raster :=
  let Feats2Burn := [lineburnRD; polyburnRD; cntrburnRD] in
  CellStatistics Feats2Burn MAXIMUM.

End HydroRaster.

(** ** GetHeadwatersScore.py: the score raster of one basin *)

Module GetHeadwatersScore.

(** [b == 1] on the 1/0 raster of a test. *)
Definition eq1 (b : braster) : braster :=
  fun i => option_map (fun x => Bool.eqb x true) (b i).

(** Line 123: [Con(IsNull(tmpCatchRast) == 1, 0, tmpCatchRast)]. *)
Definition finCatch (tmpCatchRast : raster) : raster :=
  Con (eq1 (IsNull tmpCatchRast)) (const 0) tmpCatchRast.

End GetHeadwatersScore.

(** ** Shared facts *)

Lemma div_nonzero (a b : Q) : ~ b == 0 -> Py.div a b = Ok (a / b).
Proof.
  intros Hb. unfold Py.div.
  destruct (Qeq_bool b 0) eqn:E; [|reflexivity].
  apply Qeq_bool_iff in E. contradiction.
Qed.

Lemma div_zero (a b : Q) : b == 0 -> Py.div a b = Raise ZeroDivisionError.
Proof.
  intros Hb. unfold Py.div. apply Qeq_bool_iff in Hb. now rewrite Hb.
Qed.

Lemma leb_true (a b : Q) : a <= b -> Py.leb a b = true.
Proof. intros H. now apply Qle_bool_iff. Qed.

Lemma leb_false (a b : Q) : b < a -> Py.leb a b = false.
Proof.
  intros H. unfold Py.leb. destruct (Qle_bool a b) eqn:E; [|reflexivity].
  apply Qle_bool_iff in E. lra.
Qed.

Lemma ltb_true (a b : Q) : a < b -> Py.ltb a b = true.
Proof. intros H. unfold Py.ltb. now rewrite (leb_false b a H). Qed.

Lemma ltb_false (a b : Q) : b <= a -> Py.ltb a b = false.
Proof. intros H. unfold Py.ltb. now rewrite (leb_true b a H). Qed.

Lemma cell_is_intro (r : raster) (i : nat) (c q : Q) :
  r i = Some c -> c == q -> cell_is (Ok r) i q.
Proof. intros Hc Hq. exists r, c. auto. Qed.

(** ** The linear truncated scorer *)

Section LinearTrunc.

Variables (in_Integ : raster) (Y X1 X2 : Q).
Hypothesis X2_neq_X1 : ~ X2 == X1.

Let slope := (100 - Y) / (X2 - X1).
Let intercept := 100 - slope * X2.

Lemma linear_Slope : Py.div (100 - Y) (X2 - X1) = Ok slope.
Proof. apply div_nonzero. intros H. apply X2_neq_X1. lra. Qed.

Lemma linear_low (i : nat) (value : Q) :
  in_Integ i = Some value -> value <= X1 ->
  cell_is (GetIntegLinearTrunc.outRast in_Integ Y X1 X2) i 50.
Proof.
  intros Hv Hle. unfold GetIntegLinearTrunc.outRast.
  rewrite linear_Slope. cbn [Py.bind].
  eapply cell_is_intro; [|reflexivity].
  unfold Con, le_. rewrite Hv. cbn [option_map].
  now rewrite (leb_true _ _ Hle).
Qed.

Lemma linear_high (i : nat) (value : Q) :
  in_Integ i = Some value -> X1 < value -> X2 <= value ->
  cell_is (GetIntegLinearTrunc.outRast in_Integ Y X1 X2) i 100.
Proof.
  intros Hv Hlt Hge. unfold GetIntegLinearTrunc.outRast.
  rewrite linear_Slope. cbn [Py.bind].
  eapply cell_is_intro; [|reflexivity].
  unfold Con, le_, ge_. rewrite Hv. cbn [option_map].
  now rewrite (leb_false _ _ Hlt), (leb_true _ _ Hge).
Qed.

Lemma linear_mid (i : nat) (value : Q) :
  in_Integ i = Some value -> X1 < value -> value < X2 ->
  cell_is (GetIntegLinearTrunc.outRast in_Integ Y X1 X2) i
    (slope * value + intercept).
Proof.
  intros Hv Hlt Hlt2. unfold GetIntegLinearTrunc.outRast.
  rewrite linear_Slope. cbn [Py.bind].
  eapply cell_is_intro; [|reflexivity].
  unfold Con, le_, ge_, shift, scale. rewrite Hv. cbn [option_map].
  now rewrite (leb_false _ _ Hlt), (leb_false _ _ Hlt2).
Qed.

End LinearTrunc.

(** C1 (amended).  Linear Truncated Scorer, for all inputs with
    [X2 =/= X1] and with [slope = (100 - Y)/(X2 - X1)],
    [intercept = 100 - slope*X2]: a cell holding [value <= X1] scores 50
    whatever [Y] is; a cell holding [value >= X2] that is also above [X1]
    scores 100; a cell with [X1 < value < X2] scores
    [slope*value + intercept].  With [Y=20], [X1=10], [X2=50]:
    [score(5)=50], [score(30)=60], [score(60)=100]. *)
Theorem C1_linear_trunc_score
    (in_Integ : raster) (Y X1 X2 value : Q) (i : nat) :
  ~ X2 == X1 ->
  in_Integ i = Some value ->
  let slope := (100 - Y) / (X2 - X1) in
  let intercept := 100 - slope * X2 in
  let out := GetIntegLinearTrunc.outRast in_Integ Y X1 X2 in
  (value <= X1 -> cell_is out i 50) /\
  (X1 < value -> X2 <= value -> cell_is out i 100) /\
  (X1 < value -> value < X2 -> cell_is out i (slope * value + intercept)) /\
  returns (GetIntegLinearTrunc.score 5 20 10 50) 50 /\
  returns (GetIntegLinearTrunc.score 30 20 10 50) 60 /\
  returns (GetIntegLinearTrunc.score 60 20 10 50) 100.
Proof.
  intros Hne Hv slope intercept out.
  split; [|split; [|split]].
  - now apply linear_low.
  - now apply linear_high.
  - now apply linear_mid.
  - repeat split; eexists; (split; [vm_compute; reflexivity | reflexivity]).
Qed.

Lemma C1_linear_trunc_score_witness :
  cell_is (GetIntegLinearTrunc.outRast (const 30) 20 10 50) 0
    ((100 - 20) / (50 - 10) * 30 + (100 - (100 - 20) / (50 - 10) * 50)).
Proof.
  assert (Hne : ~ (50 : Q) == 10) by (intros H; discriminate H).
  destruct (C1_linear_trunc_score (const 30) 20 10 50 30 0%nat Hne eq_refl)
    as (_ & _ & Hmid & _).
  apply Hmid; reflexivity.
Defined.

(** C1 as stated fails when the inflection points are reversed: with
    [X1 = 50], [X2 = 10] (so [X2 =/= X1]) the value 30 is [>= X2], yet the
    first test [Integ <= X1] wins and the cell scores 50, not 100. *)
Lemma C1_counterexample :
  ~ (10 : Q) == 50 /\ (10 : Q) <= 30 /\
  cell_is (GetIntegLinearTrunc.outRast (const 30) 20 50 10) 0 50 /\
  ~ cell_is (GetIntegLinearTrunc.outRast (const 30) 20 50 10) 0 100.
Proof.
  split; [intros H; discriminate H|].
  split; [intros H; discriminate H|].
  split.
  - eexists; eexists. split; [vm_compute; reflexivity|].
    split; [vm_compute; reflexivity | reflexivity].
  - intros (r & c & Hr & Hc & Hq).
    vm_compute in Hr. injection Hr as <-.
    vm_compute in Hc. injection Hc as <-.
    discriminate Hq.
Qed.

(** ** Continuity of the linear truncated scorer at its inflection points *)




Section LinearTruncBoundary.

Variables (Y X1 X2 : Q).
Hypothesis X1_lt_X2 : X1 < X2.

Let slope := (100 - Y) / (X2 - X1).
Let intercept := 100 - slope * X2.
Let score (v : Q) := GetIntegLinearTrunc.score v Y X1 X2.












End LinearTruncBoundary.



(** ** The hump-shaped scorer *)

Section Hump.

Variables (in_Integ : raster) (Y X1 X2 X3 X4 : Q).
Hypothesis X1_lt_X2 : X1 < X2.
Hypothesis X2_le_X3 : X2 <= X3.
Hypothesis X3_lt_X4 : X3 < X4.

Let slope1 := (100 - Y) / (X2 - X1).
Let int1 := 100 - slope1 * X2.
Let slope2 := (100 - Y) / (X3 - X4).
Let int2 := 100 - slope2 * X3.

Lemma hump_Slope1 : Py.div (100 - Y) (X2 - X1) = Ok slope1.
Proof. apply div_nonzero. lra. Qed.

Lemma hump_Slope2 : Py.div (100 - Y) (X3 - X4) = Ok slope2.
Proof. apply div_nonzero. lra. Qed.

(** The output, with the two divisions done. *)
Lemma hump_outRast :
  GetIntegMultHumpLinear.outRast in_Integ Y X1 X2 X3 X4 =
  Ok (Con (or_ (le_ in_Integ X1) (ge_ in_Integ X4)) (const 50)
        (Con (and_ (ge_ in_Integ X2) (le_ in_Integ X3)) (const 100)
           (Con (lt_ in_Integ X2)
              (shift (scale slope1 in_Integ) int1)
              (shift (scale slope2 in_Integ) int2)))).
Proof.
  unfold GetIntegMultHumpLinear.outRast.
  rewrite hump_Slope1. cbn [Py.bind]. rewrite hump_Slope2. reflexivity.
Qed.

Variables (i : nat) (value : Q).
Hypothesis cell_i : in_Integ i = Some value.

Ltac hump_cell :=
  rewrite hump_outRast; eapply cell_is_intro; [|reflexivity];
  unfold Con, or_, and_, lift2, le_, ge_, lt_, shift, scale;
  rewrite cell_i; cbn [option_map].

Lemma hump_left_clamp :
  value <= X1 ->
  cell_is (GetIntegMultHumpLinear.outRast in_Integ Y X1 X2 X3 X4) i 50.
Proof. intros H. hump_cell. now rewrite (leb_true value X1 H). Qed.

Lemma hump_right_clamp :
  X4 <= value ->
  cell_is (GetIntegMultHumpLinear.outRast in_Integ Y X1 X2 X3 X4) i 50.
Proof.
  intros H. hump_cell. rewrite (leb_true X4 value H).
  now rewrite orb_true_r.
Qed.

Lemma hump_plateau :
  X2 <= value -> value <= X3 ->
  cell_is (GetIntegMultHumpLinear.outRast in_Integ Y X1 X2 X3 X4) i 100.
Proof.
  intros H2 H3. hump_cell.
  rewrite (leb_false value X1), (leb_false X4 value) by lra.
  now rewrite (leb_true X2 value H2), (leb_true value X3 H3).
Qed.

Lemma hump_rising :
  X1 < value -> value < X2 ->
  cell_is (GetIntegMultHumpLinear.outRast in_Integ Y X1 X2 X3 X4) i
    (slope1 * value + int1).
Proof.
  intros H1 H2. hump_cell.
  rewrite (leb_false value X1), (leb_false X4 value) by lra.
  rewrite (leb_false X2 value) by lra.
  now rewrite (ltb_true value X2 H2).
Qed.

Lemma hump_falling :
  X3 < value -> value < X4 ->
  cell_is (GetIntegMultHumpLinear.outRast in_Integ Y X1 X2 X3 X4) i
    (slope2 * value + int2).
Proof.
  intros H3 H4. hump_cell.
  rewrite (leb_false value X1), (leb_false X4 value) by lra.
  rewrite (leb_true X2 value), (leb_false value X3) by lra.
  now rewrite (ltb_false value X2) by lra.
Qed.

End Hump.

(** C2.  Hump-Shaped Scorer, for all inputs with [X1 < X2 <= X3 < X4]:
    the score is 50 for every value [<= X1] or [>= X4] (so at [X1] and at
    [X4]), 100 on the closed interval [[X2, X3]],
    [slope1*value + int1] for [X1 < value < X2] and [slope2*value + int2]
    for [X3 < value < X4], with [slope1 = (100-Y)/(X2-X1)],
    [int1 = 100 - slope1*X2], [slope2 = (100-Y)/(X3-X4)],
    [int2 = 100 - slope2*X3]. *)
Theorem C2_hump_score
    (in_Integ : raster) (Y X1 X2 X3 X4 value : Q) (i : nat) :
  X1 < X2 -> X2 <= X3 -> X3 < X4 ->
  in_Integ i = Some value ->
  let slope1 := (100 - Y) / (X2 - X1) in
  let int1 := 100 - slope1 * X2 in
  let slope2 := (100 - Y) / (X3 - X4) in
  let int2 := 100 - slope2 * X3 in
  let out := GetIntegMultHumpLinear.outRast in_Integ Y X1 X2 X3 X4 in
  (value == X1 -> cell_is out i 50) /\
  (value == X4 -> cell_is out i 50) /\
  (value <= X1 \/ X4 <= value -> cell_is out i 50) /\
  (X2 <= value -> value <= X3 -> cell_is out i 100) /\
  (X1 < value -> value < X2 -> cell_is out i (slope1 * value + int1)) /\
  (X3 < value -> value < X4 -> cell_is out i (slope2 * value + int2)).
Proof.
  intros H12 H23 H34 Hv slope1 int1 slope2 int2 out.
  repeat split.
  - intros E. apply hump_left_clamp with (value := value); auto; lra.
  - intros E. apply hump_right_clamp with (value := value); auto; lra.
  - intros [H | H].
    + now apply hump_left_clamp with (value := value).
    + now apply hump_right_clamp with (value := value).
  - intros. now apply hump_plateau with (value := value).
  - intros. now apply hump_rising with (value := value).
  - intros. now apply hump_falling with (value := value).
Qed.

Lemma C2_hump_score_witness :
  cell_is (GetIntegMultHumpLinear.outRast (const 40) 20 10 30 60 90) 0 100.
Proof.
  assert (H12 : (10 : Q) < 30) by reflexivity.
  assert (H23 : (30 : Q) <= 60) by (intros H; discriminate H).
  assert (H34 : (60 : Q) < 90) by reflexivity.
  destruct (C2_hump_score (const 40) 20 10 30 60 90 40 0%nat H12 H23 H34 eq_refl)
    as (_ & _ & _ & Hp & _).
  apply Hp; intros H; discriminate H.
Defined.

(** ** The range scorers *)

Lemma ltb_lt (a b : Q) : Py.ltb a b = true -> a < b.
Proof.
  unfold Py.ltb, Py.leb. intros H. apply negb_true_iff in H.
  apply Qnot_le_lt. intros Hle. apply Qle_bool_iff in Hle. congruence.
Qed.

Lemma ltb_ge (a b : Q) : Py.ltb a b = false -> b <= a.
Proof.
  unfold Py.ltb, Py.leb. intros H. apply negb_false_iff in H.
  now apply Qle_bool_iff.
Qed.

Lemma Qdiv_le_mono (x y d : Q) : 0 < d -> x <= y -> x / d <= y / d.
Proof.
  intros Hd Hxy. unfold Qdiv. apply Qmult_le_compat_r; [assumption|].
  apply Qinv_le_0_compat. lra.
Qed.

Section RangeScorer.

Variables (minThresh maxThresh : Q).

(** Inside the window both scorers reach their last branch. *)
Lemma pos_inside (v : Q) :
  minThresh <= v -> v <= maxThresh ->
  KfactToScores.outScore (PyNum v) minThresh maxThresh =
  (score <- Py.div (100 * (v - minThresh)) (maxThresh - minThresh) ;;
   Ok (PyNum score)).
Proof.
  intros H1 H2. unfold KfactToScores.outScore. cbn [Py.float Py.bind].
  now rewrite (ltb_false v minThresh H1), (ltb_false maxThresh v H2).
Qed.

Lemma neg_inside (v : Q) :
  minThresh <= v -> v <= maxThresh ->
  RescalePollutantsToScores.outScore (PyNum v) minThresh maxThresh =
  (score <- Py.div (100 * (maxThresh - v)) (maxThresh - minThresh) ;;
   Ok (PyNum score)).
Proof.
  intros H1 H2. unfold RescalePollutantsToScores.outScore.
  now rewrite (ltb_false v minThresh H1), (ltb_false maxThresh v H2).
Qed.

Lemma pos_below (v : Q) :
  v < minThresh ->
  KfactToScores.outScore (PyNum v) minThresh maxThresh = Ok (PyNum 0).
Proof.
  intros H. unfold KfactToScores.outScore. cbn [Py.float Py.bind].
  now rewrite (ltb_true v minThresh H).
Qed.

Lemma neg_below (v : Q) :
  v < minThresh ->
  RescalePollutantsToScores.outScore (PyNum v) minThresh maxThresh =
  Ok (PyNum 100).
Proof.
  intros H. unfold RescalePollutantsToScores.outScore.
  now rewrite (ltb_true v minThresh H).
Qed.

Lemma pos_above (v : Q) :
  minThresh <= v -> maxThresh < v ->
  KfactToScores.outScore (PyNum v) minThresh maxThresh = Ok (PyNum 100).
Proof.
  intros H1 H2. unfold KfactToScores.outScore. cbn [Py.float Py.bind].
  now rewrite (ltb_false v minThresh H1), (ltb_true maxThresh v H2).
Qed.

Lemma neg_above (v : Q) :
  minThresh <= v -> maxThresh < v ->
  RescalePollutantsToScores.outScore (PyNum v) minThresh maxThresh =
  Ok (PyNum 0).
Proof.
  intros H1 H2. unfold RescalePollutantsToScores.outScore.
  now rewrite (ltb_false v minThresh H1), (ltb_true maxThresh v H2).
Qed.

Hypothesis window : minThresh < maxThresh.

Lemma pos_interp (v : Q) :
  minThresh <= v -> v <= maxThresh ->
  KfactToScores.outScore (PyNum v) minThresh maxThresh =
  Ok (PyNum (100 * (v - minThresh) / (maxThresh - minThresh))).
Proof.
  intros H1 H2. rewrite pos_inside by assumption.
  rewrite div_nonzero by lra. reflexivity.
Qed.

Lemma neg_interp (v : Q) :
  minThresh <= v -> v <= maxThresh ->
  RescalePollutantsToScores.outScore (PyNum v) minThresh maxThresh =
  Ok (PyNum (100 * (maxThresh - v) / (maxThresh - minThresh))).
Proof.
  intros H1 H2. rewrite neg_inside by assumption.
  rewrite div_nonzero by lra. reflexivity.
Qed.

End RangeScorer.

(** C5 (amended).  Range Scorer with [min == max], either polarity: a
    value equal to the threshold raises [ZeroDivisionError] (no infinity
    or NaN is produced); a value below it or above it takes a clamp
    branch and returns 0 or 100 without any error. *)
Theorem C5_degenerate_thresholds (v minThresh maxThresh : Q) :
  minThresh == maxThresh ->
  let pos := KfactToScores.outScore (PyNum v) minThresh maxThresh in
  let neg := RescalePollutantsToScores.outScore (PyNum v) minThresh maxThresh in
  (v == minThresh ->
     pos = Raise ZeroDivisionError /\ neg = Raise ZeroDivisionError) /\
  (v < minThresh -> pos = Ok (PyNum 0) /\ neg = Ok (PyNum 100)) /\
  (minThresh < v -> pos = Ok (PyNum 100) /\ neg = Ok (PyNum 0)).
Proof.
  intros Heq pos neg. unfold pos, neg. repeat split.
  - rewrite pos_inside by lra. now rewrite div_zero by lra.
  - rewrite neg_inside by lra. now rewrite div_zero by lra.
  - now apply pos_below.
  - now apply neg_below.
  - apply pos_above; lra.
  - apply neg_above; lra.
Qed.

Lemma C5_degenerate_thresholds_witness :
  KfactToScores.outScore (PyNum 3) 3 3 = Raise ZeroDivisionError /\
  RescalePollutantsToScores.outScore (PyNum 3) 3 3 = Raise ZeroDivisionError.
Proof.
  assert (E : (3 : Q) == 3) by reflexivity.
  destruct (C5_degenerate_thresholds 3 3 3 E) as (H & _).
  exact (H E).
Defined.

(** C5 as stated fails: with [min = max = 0] the value 1 is scored by the
    clamp branch of either polarity and nothing is raised. *)
Lemma C5_counterexample :
  KfactToScores.outScore (PyNum 1) 0 0 = Ok (PyNum 100) /\
  RescalePollutantsToScores.outScore (PyNum 1) 0 0 = Ok (PyNum 0).
Proof. split; reflexivity. Qed.

(** C6.  A null input: the negative-polarity scorer returns null for
    every threshold setting; the positive-polarity scorer
    (KfactToScores.py, mibiToScores.py) has no null test and [float(None)]
    raises [TypeError]. *)
Theorem C6_null_input (minThresh maxThresh : Q) :
  RescalePollutantsToScores.outScore PyNone minThresh maxThresh = Ok PyNone /\
  KfactToScores.outScore PyNone minThresh maxThresh = Raise TypeError /\
  mibiToScores.outScore PyNone minThresh maxThresh = Raise TypeError.
Proof. repeat split. Qed.

(** ** The range scorers on doubles *)

Module DoubleFacts.

Import Double.

Lemma pow2_pos (z : Z) : 0 < 2 ^ z.
Proof. apply Qpower_0_lt. reflexivity. Qed.

Lemma pow2_plus (a b : Z) : 2 ^ (a + b) == 2 ^ a * 2 ^ b.
Proof. apply Qpower_plus. discriminate. Qed.

Lemma pow2_le (a b : Z) : (a <= b)%Z -> 2 ^ a <= 2 ^ b.
Proof. intros H. apply Qpower_le_compat_l; [exact H | discriminate]. Qed.

Lemma pow2_lt_inv (a b : Z) : 2 ^ a < 2 ^ b -> (a < b)%Z.
Proof. intros H. apply (Qpower_lt_compat_l_inv 2); [exact H | reflexivity]. Qed.

Lemma pow2_inject (n : Z) : (0 <= n)%Z -> inject_Z (2 ^ n) == 2 ^ n.
Proof. intros H. apply (Zpower_Qpower 2 n H). Qed.

Lemma pow2_split (a b : Z) : 2 ^ a == 2 ^ (a - b) * 2 ^ b.
Proof. rewrite <- pow2_plus. now replace (a - b + b)%Z with a by lia. Qed.

Lemma pow2_succ (a : Z) : 2 ^ (a + 1) == 2 * 2 ^ a.
Proof. rewrite pow2_plus. change (2 ^ 1) with 2. ring. Qed.

(** The exponent found by [ilog2] is the binary order of magnitude. *)
Lemma ilog2_spec (q : Q) :
  0 < q -> 2 ^ ilog2 q <= q /\ q < 2 ^ (ilog2 q + 1).
Proof.
  intros Hq. destruct q as [n d].
  assert (Hn : (0 < n)%Z).
  { unfold Qlt in Hq. cbn in Hq. lia. }
  pose proof (Z.log2_spec n Hn) as [Ha1 Ha2].
  pose proof (Z.log2_spec (Z.pos d) (Pos2Z.is_pos d)) as [Hb1 Hb2].
  pose proof (Z.log2_nonneg n) as Ha0.
  pose proof (Z.log2_nonneg (Z.pos d)) as Hb0.
  unfold ilog2. cbn [Qnum Qden].
  set (a := Z.log2 n) in *. set (b := Z.log2 (Z.pos d)) in *.
  rewrite Zle_Qle, pow2_inject in Ha1, Hb1 by assumption.
  rewrite Zlt_Qlt, pow2_inject in Ha2, Hb2 by lia.
  unfold Z.succ in Ha2, Hb2. rewrite pow2_succ in Ha2, Hb2.
  assert (Hk : 2 ^ a == 2 ^ (a - b) * 2 ^ b) by apply pow2_split.
  assert (Hk1 : 2 * 2 ^ (a - b - 1) == 2 ^ (a - b)).
  { rewrite <- pow2_succ. now replace (a - b - 1 + 1)%Z with (a - b)%Z by lia. }
  assert (Hq' : n # d == inject_Z n / inject_Z (Z.pos d)) by apply Qmake_Qdiv.
  pose proof (pow2_pos a) as Pa. pose proof (pow2_pos b) as Pb.
  pose proof (pow2_pos (a - b)) as Pk. pose proof (pow2_pos (a - b - 1)) as Pk1.
  assert (HD : 0 < inject_Z (Z.pos d)) by lra.
  assert (Hmul : (n # d) * inject_Z (Z.pos d) == inject_Z n).
  { rewrite Hq'. field. lra. }
  set (N := inject_Z n) in *. set (D := inject_Z (Z.pos d)) in *.
  set (A := 2 ^ a) in *. set (B := 2 ^ b) in *.
  set (x := n # d) in *.
  assert (Hx : 0 < x) by exact Hq.
  clearbody N D A B x.
  destruct (Py.leb (2 ^ (a - b)) x) eqn:E.
  - apply Qle_bool_iff in E. split; [exact E|].
    rewrite pow2_succ. set (K := 2 ^ (a - b)) in *. clearbody K. nra.
  - replace (a - b - 1 + 1)%Z with (a - b)%Z by lia.
    assert (E' : x < 2 ^ (a - b)).
    { apply Qnot_le_lt. intros H. apply Qle_bool_iff in H.
      unfold Py.leb in E. congruence. }
    split; [|exact E'].
    set (K := 2 ^ (a - b)) in *. set (K1 := 2 ^ (a - b - 1)) in *.
    clearbody K K1. nra.
Qed.

Lemma ilog2_le (a b : Q) : 0 < a -> a <= b -> (ilog2 a <= ilog2 b)%Z.
Proof.
  intros Ha Hab.
  destruct (ilog2_spec a Ha) as [A1 _].
  destruct (ilog2_spec b) as [_ B2]; [lra|].
  assert (H : (ilog2 a < ilog2 b + 1)%Z) by (apply pow2_lt_inv; lra).
  lia.
Qed.

Lemma ilog2_lt_pow2 (q : Q) (e : Z) : 0 < q -> q < 2 ^ e -> (ilog2 q < e)%Z.
Proof.
  intros Hq H. destruct (ilog2_spec q Hq) as [A1 _].
  apply pow2_lt_inv. lra.
Qed.

Lemma ilog2_ge_pow2 (q : Q) (e : Z) : 2 ^ e <= q -> (e <= ilog2 q)%Z.
Proof.
  intros H. pose proof (pow2_pos e) as P.
  destruct (ilog2_spec q) as [_ A2]; [lra|].
  assert (Hlt : (e < ilog2 q + 1)%Z) by (apply pow2_lt_inv; lra).
  lia.
Qed.


Lemma rhe_integer (z : Z) :
  RescalePollutantsToScores.round_half_even (inject_Z z) = z.
Proof.
  unfold RescalePollutantsToScores.round_half_even. rewrite Qfloor_Z.
  rewrite ltb_true; [reflexivity|].
  setoid_replace (inject_Z z - inject_Z z) with 0 by ring. reflexivity.
Qed.

Lemma rhe_floor (x : Q) :
  (Qfloor x <= RescalePollutantsToScores.round_half_even x <= Qfloor x + 1)%Z.
Proof.
  unfold RescalePollutantsToScores.round_half_even.
  destruct (Py.ltb _ _); [lia|].
  destruct (Py.ltb _ _); [lia|].
  destruct (Z.even _); lia.
Qed.

(** The nearest integer is within one half. *)
Lemma rhe_near (x : Q) :
  inject_Z (RescalePollutantsToScores.round_half_even x) - (1 # 2) <= x /\
  x <= inject_Z (RescalePollutantsToScores.round_half_even x) + (1 # 2).
Proof.
  pose proof (Qfloor_le x) as F1. pose proof (Qlt_floor x) as F2.
  rewrite inject_Z_plus in F2. change (inject_Z 1) with 1 in F2.
  unfold RescalePollutantsToScores.round_half_even.
  destruct (Py.ltb (x - inject_Z (Qfloor x)) (1 # 2)) eqn:E1.
  { apply ltb_lt in E1. lra. }
  apply ltb_ge in E1.
  destruct (Py.ltb (1 # 2) (x - inject_Z (Qfloor x))) eqn:E2.
  { rewrite inject_Z_plus. change (inject_Z 1) with 1. lra. }
  apply ltb_ge in E2.
  destruct (Z.even (Qfloor x)).
  - lra.
  - rewrite inject_Z_plus. change (inject_Z 1) with 1. lra.
Qed.

Lemma rhe_mono (x y : Q) :
  x <= y ->
  (RescalePollutantsToScores.round_half_even x
   <= RescalePollutantsToScores.round_half_even y)%Z.
Proof.
  intros Hxy.
  pose proof (Qfloor_resp_le x y Hxy) as Hf.
  destruct (Z.eq_dec (Qfloor x) (Qfloor y)) as [E | N].
  - unfold RescalePollutantsToScores.round_half_even. rewrite <- E.
    set (f := Qfloor x).
    destruct (Py.ltb (x - inject_Z f) (1 # 2)) eqn:X1;
      destruct (Py.ltb (y - inject_Z f) (1 # 2)) eqn:Y1;
      destruct (Py.ltb (1 # 2) (x - inject_Z f)) eqn:X2;
      destruct (Py.ltb (1 # 2) (y - inject_Z f)) eqn:Y2;
      destruct (Z.even f);
      try lia;
      repeat match goal with
             | H : Py.ltb _ _ = true |- _ => apply ltb_lt in H
             | H : Py.ltb _ _ = false |- _ => apply ltb_ge in H
             end; exfalso; lra.
  - pose proof (rhe_floor x). pose proof (rhe_floor y). lia.
Qed.

Lemma rhe_comp (x y : Q) :
  x == y ->
  RescalePollutantsToScores.round_half_even x
  = RescalePollutantsToScores.round_half_even y.
Proof.
  intros H. apply Z.le_antisymm; apply rhe_mono; lra.
Qed.

Lemma ulp_exp_ge (q : Q) : (-1074 <= ulp_exp q)%Z.
Proof. unfold ulp_exp, emin. lia. Qed.

Lemma round64_zero (q : Q) : q == 0 -> round64 q == 0.
Proof.
  intros H. unfold round64.
  rewrite (rhe_comp (q / 2 ^ ulp_exp q) (inject_Z 0)).
  - rewrite rhe_integer. change (inject_Z 0) with 0. ring.
  - change (inject_Z 0) with 0. unfold Qdiv.
    transitivity (0 * / 2 ^ ulp_exp q); [|ring].
    apply Qmult_comp; [exact H | reflexivity].
Qed.

Lemma round64_nonneg (q : Q) : 0 <= q -> 0 <= round64 q.
Proof.
  intros H. unfold round64.
  pose proof (pow2_pos (ulp_exp q)) as P.
  apply Qmult_le_0_compat; [|lra].
  change 0 with (inject_Z 0). rewrite <- Zle_Qle.
  rewrite <- (rhe_integer 0) at 1. apply rhe_mono.
  change (inject_Z 0) with 0. apply Qle_shift_div_l; [exact P | lra].
Qed.

(** For a positive number: the exponents [e] of the number and
    [t] of the spacing of the doubles around it. *)
Lemma ulp_exp_pos (q : Q) :
  0 < q ->
  exists e, 2 ^ e <= q /\ q < 2 ^ (e + 1) /\
            ulp_exp q = (Z.max e emin - 52)%Z.
Proof.
  intros Hq. exists (ilog2 (Qabs q)).
  assert (Ha : Qabs q == q) by (apply Qabs_pos; lra).
  destruct (ilog2_spec (Qabs q)) as [A1 A2]; [lra|].
  rewrite Ha in A1 at 2. rewrite Ha in A2 at 1.
  repeat split; assumption.
Qed.

Lemma ulp_exp_le (a b : Q) : 0 < a -> a <= b -> (ulp_exp a <= ulp_exp b)%Z.
Proof.
  intros Ha Hab. unfold ulp_exp.
  assert (H : (ilog2 (Qabs a) <= ilog2 (Qabs b))%Z).
  { apply ilog2_le.
    - rewrite Qabs_pos; lra.
    - rewrite !Qabs_pos; lra. }
  lia.
Qed.

(** A positive number below [2^(E+1)], where [E] is the exponent that
    fixes its spacing, rounds to at most [2^(E+1)]. *)
Lemma round64_upper (q : Q) :
  0 < q -> round64 q <= 2 ^ (ulp_exp q + 53).
Proof.
  intros Hq. destruct (ulp_exp_pos q Hq) as (e & E1 & E2 & Et).
  unfold round64. set (t := ulp_exp q) in *.
  pose proof (pow2_pos t) as Pt.
  rewrite pow2_plus, (Qmult_comm (2 ^ t)).
  apply Qmult_le_compat_r; [|lra].
  rewrite <- (pow2_inject 53) by lia. rewrite <- Zle_Qle.
  rewrite <- (rhe_integer (2 ^ 53)). apply rhe_mono.
  rewrite (pow2_inject 53) by lia.
  apply Qle_shift_div_r; [exact Pt|]. rewrite <- pow2_plus.
  assert (H : 2 ^ (e + 1) <= 2 ^ (53 + t)) by (apply pow2_le; lia).
  lra.
Qed.

(** A normal number rounds to at least the power of two below it. *)
Lemma round64_lower (q : Q) (e : Z) :
  (emin <= e)%Z -> 2 ^ e <= q -> ulp_exp q = (e - 52)%Z ->
  2 ^ e <= round64 q.
Proof.
  intros He Hq Ht. unfold round64. rewrite Ht.
  pose proof (pow2_pos (e - 52)) as Pt.
  rewrite (pow2_split e (e - 52)) at 1.
  replace (e - (e - 52))%Z with 52%Z by lia.
  apply Qmult_le_compat_r; [|lra].
  rewrite <- (pow2_inject 52) by lia. rewrite <- Zle_Qle.
  rewrite <- (rhe_integer (2 ^ 52)). apply rhe_mono.
  rewrite (pow2_inject 52) by lia.
  apply Qle_shift_div_l; [exact Pt|].
  rewrite <- pow2_plus. now replace (52 + (e - 52))%Z with e by lia.
Qed.

(** Rounding is monotone. *)
Lemma round64_mono (a b : Q) : 0 <= a -> a <= b -> round64 a <= round64 b.
Proof.
  intros Ha Hab.
  destruct (Qlt_le_dec 0 a) as [Hpos | Hz].
  2:{ rewrite (round64_zero a) by lra. apply round64_nonneg. lra. }
  pose proof (ulp_exp_le a b Hpos Hab) as Ht.
  destruct (Z.eq_dec (ulp_exp a) (ulp_exp b)) as [E | N].
  - unfold round64. rewrite <- E.
    pose proof (pow2_pos (ulp_exp a)) as Pt.
    apply Qmult_le_compat_r; [|lra].
    rewrite <- Zle_Qle. apply rhe_mono.
    apply Qdiv_le_mono; assumption.
  - destruct (ulp_exp_pos b) as (eb & B1 & B2 & Bt); [lra|].
    apply Qle_trans with (2 ^ (ulp_exp a + 53)).
    + apply round64_upper; assumption.
    + pose proof (ulp_exp_ge a) as Ga.
      assert (Hmax : Z.max eb emin = eb) by (unfold emin in *; lia).
      apply Qle_trans with (2 ^ eb).
      * apply pow2_le. lia.
      * apply round64_lower; [lia | assumption | lia].
Qed.

Lemma round64_comp (a b : Q) : 0 <= a -> a == b -> round64 a == round64 b.
Proof.
  intros Ha H. apply Qle_antisym; apply round64_mono; lra.
Qed.

(** The relative error of rounding a number of the normal range is at
    most [2^-53]. *)
Lemma round64_relative (q : Q) :
  2 ^ emin <= q ->
  q * (1 - 2 ^ (-53)) <= round64 q /\ round64 q <= q * (1 + 2 ^ (-53)).
Proof.
  intros Hq. pose proof (pow2_pos emin) as Pm.
  destruct (ulp_exp_pos q) as (e & E1 & E2 & Et); [lra|].
  assert (He : (emin <= e)%Z).
  { assert (H : (emin < e + 1)%Z) by (apply pow2_lt_inv; lra). lia. }
  rewrite Z.max_l in Et by lia.
  unfold round64. rewrite Et.
  pose proof (rhe_near (q / 2 ^ (e - 52))) as [N1 N2].
  pose proof (pow2_pos (e - 52)) as Pt.
  assert (Hq' : q == q / 2 ^ (e - 52) * 2 ^ (e - 52)) by (field; lra).
  assert (Hu : 2 ^ (e - 52) * (1 # 2) == 2 ^ e * 2 ^ (-53)).
  { rewrite (pow2_split e (e - 52)).
    replace (e - (e - 52))%Z with 52%Z by lia.
    assert (Hc : 2 ^ 52 * 2 ^ (-53) == 1 # 2) by (vm_compute; reflexivity).
    set (u := 2 ^ (e - 52)). set (a := 2 ^ 52) in *. set (b := 2 ^ (-53)) in *.
    clearbody u a b.
    transitivity (u * (a * b)); [rewrite Hc; reflexivity | ring]. }
  pose proof (pow2_pos e) as Pe.
  assert (P53 : 0 < 2 ^ (-53)) by apply pow2_pos.
  set (r := inject_Z (RescalePollutantsToScores.round_half_even
                        (q / 2 ^ (e - 52)))) in *.
  set (x := q / 2 ^ (e - 52)) in *.
  set (u := 2 ^ (e - 52)) in *. set (p := 2 ^ e) in *.
  set (h := 2 ^ (-53)) in *.
  clearbody r x u p h. nra.
Qed.

(** Every double is a multiple of [2^-1074]. *)
Lemma round64_grid (q : Q) : exists n, round64 q == inject_Z n * 2 ^ (-1074).
Proof.
  pose proof (ulp_exp_ge q) as G.
  exists (RescalePollutantsToScores.round_half_even (q / 2 ^ ulp_exp q)
          * 2 ^ (ulp_exp q + 1074))%Z.
  unfold round64. rewrite inject_Z_mult, pow2_inject by lia.
  pose proof (pow2_split (ulp_exp q) (-1074)) as Hs.
  replace (ulp_exp q - -1074)%Z with (ulp_exp q + 1074)%Z in Hs by lia.
  set (r := inject_Z _). clearbody r.
  rewrite Hs. ring.
Qed.

(** Below the normal range the multiples of [2^-1074] are doubles. *)
Lemma round64_subnormal (q : Q) (n : Z) :
  0 <= q -> q < 2 ^ emin -> q == inject_Z n * 2 ^ (-1074) ->
  round64 q == q.
Proof.
  intros Hq Hlt Hn.
  destruct (Qlt_le_dec 0 q) as [Hpos | Hz].
  2:{ rewrite round64_zero; lra. }
  destruct (ulp_exp_pos q Hpos) as (e & E1 & E2 & Et).
  assert (He : (e < emin)%Z) by (apply pow2_lt_inv; lra).
  rewrite Z.max_r in Et by lia.
  unfold round64. rewrite Et. change (emin - 52)%Z with (-1074)%Z.
  pose proof (pow2_pos (-1074)) as P.
  rewrite (rhe_comp (q / 2 ^ (-1074)) (inject_Z n)).
  - rewrite rhe_integer. symmetry. exact Hn.
  - rewrite Hn. field. lra.
Qed.

Lemma fl_finite (q : Q) :
  0 <= round64 q -> round64 q <= max_double -> fl q = Some (round64 q).
Proof.
  intros H0 H1. unfold fl.
  rewrite leb_true; [reflexivity|]. rewrite Qabs_pos; assumption.
Qed.

Lemma double_grid (q : Q) :
  round64 q == q -> exists n, q == inject_Z n * 2 ^ (-1074).
Proof.
  intros H. destruct (round64_grid q) as [n Hn]. exists n.
  rewrite <- H. exact Hn.
Qed.

Lemma round64_smallest : round64 (2 ^ (-1074)) == 2 ^ (-1074).
Proof.
  apply (round64_subnormal _ 1).
  - apply Qlt_le_weak, pow2_pos.
  - apply Qpower_lt_compat_l; [unfold emin; lia | reflexivity].
  - change (inject_Z 1) with 1. ring.
Qed.

(** Two different doubles are at least [2^-1074] apart. *)
Lemma doubles_apart (a b : Q) :
  round64 a == a -> round64 b == b -> a < b -> 2 ^ (-1074) <= b - a.
Proof.
  intros Ha Hb Hab.
  destruct (double_grid a Ha) as [n Hn].
  destruct (double_grid b Hb) as [m Hm].
  pose proof (pow2_pos (-1074)) as P.
  set (u := 2 ^ (-1074)) in *. clearbody u.
  assert (H : (n < m)%Z).
  { rewrite Zlt_Qlt. nra. }
  assert (H1 : inject_Z n + 1 <= inject_Z m).
  { change 1 with (inject_Z 1). rewrite <- inject_Z_plus, <- Zle_Qle. lia. }
  nra.
Qed.

(** The product of 100 and a double is rounded with a relative error of
    at most [2^-53], also below the normal range. *)
Lemma round64_scaled (a : Q) (n : Z) :
  0 <= a -> a == inject_Z n * 2 ^ (-1074) ->
  100 * a * (1 - 2 ^ (-53)) <= round64 (100 * a) /\
  round64 (100 * a) <= 100 * a * (1 + 2 ^ (-53)).
Proof.
  intros Ha Hn.
  destruct (Qlt_le_dec (100 * a) (2 ^ emin)) as [Hs | Hl].
  - assert (E : round64 (100 * a) == 100 * a).
    { apply (round64_subnormal _ (100 * n)); [lra | exact Hs |].
      rewrite inject_Z_mult, Hn. change (inject_Z 100) with 100. ring. }
    rewrite E. assert (P : 0 < 2 ^ (-53)) by apply pow2_pos.
    set (h := 2 ^ (-53)) in *. clearbody h. nra.
  - apply round64_relative. exact Hl.
Qed.

Lemma round64_above_100 : round64 (100 * (1 + 2 ^ (-53))) == 100 + 2 ^ (-46).
Proof. vm_compute. reflexivity. Qed.

Lemma round64_below_100 : round64 (100 * (1 - 2 ^ (-53))) == 100 - 2 ^ (-46).
Proof. vm_compute. reflexivity. Qed.

Section RangeOnDoubles.

Variables (minThresh maxThresh : Q).
Hypothesis min_double : is_double minThresh.
Hypothesis max_double_ : is_double maxThresh.
Hypothesis min_lt_max : minThresh < maxThresh.
Hypothesis in_range : 100 * (maxThresh - minThresh) <= max_double.

(** The divisor [maxThresh - minThresh], as computed. *)
Let width := round64 (maxThresh - minThresh).

(** The score computed from the exact difference [a] of the value and
    one threshold. *)
Let scored (a : Q) : Q := round64 (round64 (100 * round64 a) / width).

Lemma width_pos : 0 < width.
Proof.
  destruct min_double as [Hm _]. destruct max_double_ as [HM _].
  pose proof (doubles_apart _ _ Hm HM min_lt_max) as H.
  pose proof (pow2_pos (-1074)) as P.
  assert (H1 : round64 (2 ^ (-1074)) <= width).
  { apply round64_mono; lra. }
  rewrite round64_smallest in H1. lra.
Qed.

Lemma width_finite : width <= max_double.
Proof.
  apply Qle_trans with (round64 (max_double / 100)).
  - apply round64_mono; [lra|].
    apply Qle_shift_div_l; [reflexivity | lra].
  - apply Qle_bool_imp_le. vm_compute. reflexivity.
Qed.

Lemma scaled_width_finite : round64 (100 * width) <= max_double.
Proof.
  pose proof width_pos as P.
  apply Qle_trans with (round64 (100 * round64 (max_double / 100))).
  - apply round64_mono; [lra|].
    assert (H : width <= round64 (max_double / 100)).
    { apply round64_mono; [lra|].
      apply Qle_shift_div_l; [reflexivity | lra]. }
    lra.
  - apply Qle_bool_imp_le. vm_compute. reflexivity.
Qed.

Lemma ratio_bounds :
  100 * (1 - 2 ^ (-53)) <= round64 (100 * width) / width /\
  round64 (100 * width) / width <= 100 * (1 + 2 ^ (-53)).
Proof.
  pose proof width_pos as P.
  destruct (round64_grid (maxThresh - minThresh)) as [n Hn].
  fold width in Hn.
  destruct (round64_scaled width n) as [L U]; [lra | exact Hn |].
  split.
  - apply Qle_shift_div_l; [exact P|].
    setoid_replace (100 * (1 - 2 ^ (-53)) * width)
      with (100 * width * (1 - 2 ^ (-53))) by ring. exact L.
  - apply Qle_shift_div_r; [exact P|].
    setoid_replace (100 * (1 + 2 ^ (-53)) * width)
      with (100 * width * (1 + 2 ^ (-53))) by ring. exact U.
Qed.

(** The score at the far threshold is 100 up to one unit in the last
    place. *)
Lemma scored_width :
  100 - 2 ^ (-46) <= scored (maxThresh - minThresh) /\
  scored (maxThresh - minThresh) <= 100 + 2 ^ (-46).
Proof.
  destruct ratio_bounds as [L U]. unfold scored. fold width.
  assert (P : 0 < 2 ^ (-53)) by apply pow2_pos.
  assert (P1 : 2 ^ (-53) < 1) by reflexivity.
  split.
  - rewrite <- round64_below_100. apply round64_mono; [|exact L].
    set (h := 2 ^ (-53)) in *. clearbody h. nra.
  - rewrite <- round64_above_100. apply round64_mono; [|exact U].
    set (h := 2 ^ (-53)) in *. clearbody h.
    apply Qle_trans with (100 * (1 - h)); [nra | exact L].
Qed.

Lemma scored_mono (a b : Q) : 0 <= a -> a <= b -> scored a <= scored b.
Proof.
  intros Ha Hab. pose proof width_pos as P.
  pose proof (round64_nonneg a Ha) as Ra.
  assert (Rab : round64 a <= round64 b) by (apply round64_mono; assumption).
  assert (Sa : 0 <= round64 (100 * round64 a)) by (apply round64_nonneg; lra).
  assert (Sab : round64 (100 * round64 a) <= round64 (100 * round64 b)).
  { apply round64_mono; lra. }
  unfold scored. apply round64_mono.
  - apply Qle_shift_div_l; [exact P | lra].
  - apply Qdiv_le_mono; assumption.
Qed.

Lemma scored_zero (a : Q) : a == 0 -> scored a == 0.
Proof.
  intros Ha. unfold scored. apply round64_zero.
  assert (H : round64 (100 * round64 a) == 0).
  { apply round64_zero. rewrite (round64_zero a Ha). ring. }
  rewrite H. unfold Qdiv. ring.
Qed.

(** The arithmetic of the last branch returns [scored a] for a
    difference [a] between 0 and [maxThresh - minThresh]: no step leaves
    the finite doubles, and the divisor is not zero. *)
Lemma last_branch (a : Q) :
  0 <= a -> a <= maxThresh - minThresh ->
  (x <- option_map Ok (fl a) ;;
   y <- Double.mul 100 x ;;
   d <- Double.sub maxThresh minThresh ;;
   score <- Double.div y d ;;
   Some (Ok (PyNum score)))%double = Some (Ok (PyNum (scored a))).
Proof.
  intros Ha Hab. pose proof width_pos as P.
  pose proof (round64_nonneg a Ha) as Ra.
  assert (Rw : round64 a <= width) by (apply round64_mono; assumption).
  assert (Sa : 0 <= round64 (100 * round64 a)) by (apply round64_nonneg; lra).
  assert (Sw : round64 (100 * round64 a) <= round64 (100 * width)).
  { apply round64_mono; lra. }
  assert (Ta : 0 <= scored a).
  { apply round64_nonneg. apply Qle_shift_div_l; [exact P | lra]. }
  assert (Tw : scored a <= 100 + 2 ^ (-46)).
  { apply Qle_trans with (scored (maxThresh - minThresh)).
    - apply scored_mono; assumption.
    - apply scored_width. }
  rewrite (fl_finite a); [|exact Ra|].
  2:{ apply Qle_trans with width; [exact Rw | apply width_finite]. }
  cbn [option_map Double.bind]. unfold Double.mul.
  rewrite (fl_finite (100 * round64 a)); [|exact Sa|].
  2:{ eapply Qle_trans; [exact Sw | apply scaled_width_finite]. }
  cbn [option_map Double.bind]. unfold Double.sub.
  rewrite (fl_finite (maxThresh - minThresh));
    [|apply Qlt_le_weak, width_pos | apply width_finite].
  cbn [option_map Double.bind]. unfold Double.div. fold width.
  destruct (Qeq_bool width 0) eqn:E.
  { apply Qeq_bool_iff in E. lra. }
  rewrite (fl_finite (round64 (100 * round64 a) / width));
    [reflexivity | exact Ta |].
  eapply Qle_trans; [exact Tw|].
  apply Qle_bool_imp_le. vm_compute. reflexivity.
Qed.

(** Between the thresholds the positive scorer returns the score of
    [x - minThresh], the negative one the score of [maxThresh - x]. *)
Lemma positive_between (x : Q) :
  minThresh <= x -> x <= maxThresh ->
  KfactToScores64.outScore (PyNum x) minThresh maxThresh
  = Some (Ok (PyNum (scored (x - minThresh)))).
Proof.
  intros H1 H2. unfold KfactToScores64.outScore.
  cbn [Py.float Double.bind].
  rewrite (ltb_false x minThresh H1), (ltb_false maxThresh x H2).
  apply last_branch; lra.
Qed.

Lemma negative_between (x : Q) :
  minThresh <= x -> x <= maxThresh ->
  RescalePollutantsToScores64.outScore (PyNum x) minThresh maxThresh
  = Some (Ok (PyNum (scored (maxThresh - x)))).
Proof.
  intros H1 H2. unfold RescalePollutantsToScores64.outScore.
  rewrite (ltb_false x minThresh H1), (ltb_false maxThresh x H2).
  apply last_branch; lra.
Qed.

End RangeOnDoubles.

End DoubleFacts.

(** C3 (amended).  Range scorer, endpoints and monotonicity, as computed
    on doubles.  For thresholds that are finite doubles with
    [minThresh < maxThresh], and [100 * (maxThresh - minThresh)] within
    the range of the doubles: the positive scorer gives exactly 0 at
    [minThresh], a score within [2^-46] (one unit in the last place) of
    100 at [maxThresh], and is non-decreasing on [minThresh, maxThresh];
    the negative scorer gives exactly 0 at [maxThresh], a score within
    [2^-46] of 100 at [minThresh], and is non-increasing on
    [minThresh, maxThresh].  No operation of either code block raises or
    leaves the finite doubles there. *)
Theorem C3_range_scorer_on_doubles (minThresh maxThresh : Q) :
  Double.is_double minThresh -> Double.is_double maxThresh ->
  minThresh < maxThresh ->
  100 * (maxThresh - minThresh) <= Double.max_double ->
  let pos x := KfactToScores64.outScore (PyNum x) minThresh maxThresh in
  let neg x :=
    RescalePollutantsToScores64.outScore (PyNum x) minThresh maxThresh in
  (Double.gives (pos minThresh) 0 /\
   (exists s, Double.gives (pos maxThresh) s /\
              100 - 2 ^ (-46) <= s /\ s <= 100 + 2 ^ (-46)) /\
   (forall x y, minThresh <= x -> x <= y -> y <= maxThresh ->
      exists sx sy, Double.gives (pos x) sx /\ Double.gives (pos y) sy /\
                    sx <= sy)) /\
  (Double.gives (neg maxThresh) 0 /\
   (exists s, Double.gives (neg minThresh) s /\
              100 - 2 ^ (-46) <= s /\ s <= 100 + 2 ^ (-46)) /\
   (forall x y, minThresh <= x -> x <= y -> y <= maxThresh ->
      exists sx sy, Double.gives (neg x) sx /\ Double.gives (neg y) sy /\
                    sy <= sx)).
Proof.
  intros Hm HM Hlt Hr pos neg. subst pos neg. cbv beta.
  pose proof (DoubleFacts.positive_between _ _ Hm HM Hlt Hr) as Hp.
  pose proof (DoubleFacts.negative_between _ _ Hm HM Hlt Hr) as Hn.
  pose proof (DoubleFacts.scored_width _ _ Hm HM Hlt) as [W1 W2].
  pose proof (DoubleFacts.scored_mono _ _ Hm HM Hlt) as Hmono.
  pose proof (DoubleFacts.scored_zero minThresh maxThresh) as Hz.
  cbv zeta in *.
  split; (split; [|split]).
  - eexists. split; [apply Hp; lra|]. apply Hz. ring.
  - eexists. split; [eexists; split; [apply Hp; lra | reflexivity]|].
    split; assumption.
  - intros x y H1 H2 H3. do 2 eexists.
    split; [eexists; split; [apply Hp; lra | reflexivity]|].
    split; [eexists; split; [apply Hp; lra | reflexivity]|].
    apply Hmono; lra.
  - eexists. split; [apply Hn; lra|]. apply Hz. ring.
  - eexists. split; [eexists; split; [apply Hn; lra | reflexivity]|].
    split; assumption.
  - intros x y H1 H2 H3. do 2 eexists.
    split; [eexists; split; [apply Hn; lra | reflexivity]|].
    split; [eexists; split; [apply Hn; lra | reflexivity]|].
    apply Hmono; lra.
Qed.

Lemma C3_range_scorer_on_doubles_witness :
  let minThresh := Double.round64 0.1 in
  let maxThresh := Double.round64 0.3 in
  let pos x := KfactToScores64.outScore (PyNum x) minThresh maxThresh in
  let neg x :=
    RescalePollutantsToScores64.outScore (PyNum x) minThresh maxThresh in
  (Double.is_double minThresh /\ Double.is_double maxThresh /\
   minThresh < maxThresh /\
   100 * (maxThresh - minThresh) <= Double.max_double) /\
  (Double.gives (pos minThresh) 0 /\
   (exists s, Double.gives (pos maxThresh) s /\
              100 - 2 ^ (-46) <= s /\ s <= 100 + 2 ^ (-46)) /\
   (forall x y, minThresh <= x -> x <= y -> y <= maxThresh ->
      exists sx sy, Double.gives (pos x) sx /\ Double.gives (pos y) sy /\
                    sx <= sy)) /\
  (Double.gives (neg maxThresh) 0 /\
   (exists s, Double.gives (neg minThresh) s /\
              100 - 2 ^ (-46) <= s /\ s <= 100 + 2 ^ (-46)) /\
   (forall x y, minThresh <= x -> x <= y -> y <= maxThresh ->
      exists sx sy, Double.gives (neg x) sx /\ Double.gives (neg y) sy /\
                    sy <= sx)).
Proof.
  cbv zeta.
  assert (H1 : Double.is_double (Double.round64 0.1)).
  { split; [vm_compute; reflexivity|].
    apply Qle_bool_imp_le. vm_compute. reflexivity. }
  assert (H2 : Double.is_double (Double.round64 0.3)).
  { split; [vm_compute; reflexivity|].
    apply Qle_bool_imp_le. vm_compute. reflexivity. }
  assert (H3 : Double.round64 0.1 < Double.round64 0.3).
  { vm_compute. reflexivity. }
  assert (H4 : 100 * (Double.round64 0.3 - Double.round64 0.1)
               <= Double.max_double).
  { apply Qle_bool_imp_le. vm_compute. reflexivity. }
  split; [repeat split; assumption|].
  exact (C3_range_scorer_on_doubles _ _ H1 H2 H3 H4).
Defined.

(** C3, as stated, fails at the upper end.  With the thresholds 0.1 and
    0.3 (as doubles) the positive scorer gives [100 + 2^-46], printed
    100.00000000000001, at the maximum, and the negative scorer gives
    the same at the minimum: [0.3 - 0.1] is rounded to
    0.19999999999999998, 100 times that to 20, and the quotient of the
    two to the double next above 100. *)
Lemma C3_counterexample :
  let minThresh := Double.round64 0.1 in
  let maxThresh := Double.round64 0.3 in
  Double.is_double minThresh /\ Double.is_double maxThresh /\
  minThresh < maxThresh /\
  Double.gives
    (KfactToScores64.outScore (PyNum maxThresh) minThresh maxThresh)
    (100 + 2 ^ (-46)) /\
  ~ Double.gives
      (KfactToScores64.outScore (PyNum maxThresh) minThresh maxThresh) 100 /\
  Double.gives
    (RescalePollutantsToScores64.outScore (PyNum minThresh)
       minThresh maxThresh)
    (100 + 2 ^ (-46)) /\
  ~ Double.gives
      (RescalePollutantsToScores64.outScore (PyNum minThresh)
         minThresh maxThresh) 100.
Proof.
  cbv zeta.
  assert (Ep : KfactToScores64.outScore (PyNum (Double.round64 0.3))
                 (Double.round64 0.1) (Double.round64 0.3)
               = Some (Ok (PyNum (7036874417766401 # 70368744177664)))).
  { vm_compute. reflexivity. }
  assert (En : RescalePollutantsToScores64.outScore
                 (PyNum (Double.round64 0.1))
                 (Double.round64 0.1) (Double.round64 0.3)
               = Some (Ok (PyNum (7036874417766401 # 70368744177664)))).
  { vm_compute. reflexivity. }
  rewrite Ep, En.
  split.
  { split; [vm_compute; reflexivity|].
    apply Qle_bool_imp_le. vm_compute. reflexivity. }
  split.
  { split; [vm_compute; reflexivity|].
    apply Qle_bool_imp_le. vm_compute. reflexivity. }
  split; [vm_compute; reflexivity|].
  split; [eexists; split; [reflexivity | vm_compute; reflexivity]|].
  split.
  { intros (c & Hc & Hq). injection Hc as <-. vm_compute in Hq. discriminate. }
  split; [eexists; split; [reflexivity | vm_compute; reflexivity]|].
  intros (c & Hc & Hq). injection Hc as <-. vm_compute in Hq. discriminate.
Qed.

(** ** Data-driven thresholds of the negative scorer *)

Module Thresholds.
Import RescalePollutantsToScores.

Lemma not_None_In (vals : list value) (v : Q) :
  In (PyNum v) vals -> In v (not_None vals).
Proof.
  intros H. unfold not_None. apply in_flat_map.
  exists (PyNum v). split; [assumption | now left].
Qed.

Lemma fold_min_le (l : list Q) (x : Q) :
  let m := fold_left (fun m y => if Py.ltb y m then y else m) l x in
  m <= x /\ forall v, In v l -> m <= v.
Proof.
  revert x. induction l as [|y l IH]; intros x; cbn.
  - split; [lra | intros v []].
  - destruct (IH (if Py.ltb y x then y else x)) as [Hacc Hall].
    destruct (Py.ltb y x) eqn:E.
    + apply ltb_lt in E. split; [lra|].
      intros v [<- | Hv]; [assumption | now apply Hall].
    + apply ltb_ge in E. split; [assumption|].
      intros v [<- | Hv]; [lra | now apply Hall].
Qed.

Lemma fold_max_ge (l : list Q) (x : Q) :
  let m := fold_left (fun m y => if Py.ltb m y then y else m) l x in
  x <= m /\ forall v, In v l -> v <= m.
Proof.
  revert x. induction l as [|y l IH]; intros x; cbn.
  - split; [lra | intros v []].
  - destruct (IH (if Py.ltb x y then y else x)) as [Hacc Hall].
    destruct (Py.ltb x y) eqn:E.
    + apply ltb_lt in E. split; [lra|].
      intros v [<- | Hv]; [assumption | now apply Hall].
    + apply ltb_ge in E. split; [assumption|].
      intros v [<- | Hv]; [lra | now apply Hall].
Qed.

Lemma min_is_lower_bound (l : list Q) (v : Q) :
  In v l -> exists m, min l = Ok m /\ m <= v.
Proof.
  destruct l as [|x l]; [intros []|]. intros Hv. eexists.
  split; [reflexivity|].
  destruct (fold_min_le l x) as [Hacc Hall].
  destruct Hv as [<- | Hv]; [assumption | now apply Hall].
Qed.

Lemma max_is_upper_bound (l : list Q) (v : Q) :
  In v l -> exists m, max l = Ok m /\ v <= m.
Proof.
  destruct l as [|x l]; [intros []|]. intros Hv. eexists.
  split; [reflexivity|].
  destruct (fold_max_ge l x) as [Hacc Hall].
  destruct Hv as [<- | Hv]; [assumption | now apply Hall].
Qed.

End Thresholds.

(** C8.  The thresholds of the negative scorer are not the observed
    minimum and maximum of the column (the comment on line 47), but
    their 12-digit print (['%s'], line 58) read back.  For the column
    1.0000000000001, 1.0000000000002, 1.0000000000003 the code block
    receives 1.0 for both: every row takes the clamp branch
    [coeff > maxThresh] and scores 0, also the observed minimum, which
    the formula with the observed minimum and maximum scores 100, and
    the middle row, which it scores about 50.  And where the print
    changes nothing, the scores still leave [0, 100]: for the column
    0.1, 0.2, 0.3 the row 0.1 scores [100 + 2^-46], printed
    100.00000000000001. *)
Theorem C8_thresholds_truncated :
  let d := Double.round64 in
  let lo := d 1.0000000000001 in
  let mid := d 1.0000000000002 in
  let hi := d 1.0000000000003 in
  let vals := [PyNum lo; PyNum mid; PyNum hi] in
  (RescalePollutantsToScores.min (RescalePollutantsToScores.not_None vals)
   = Ok lo /\
   RescalePollutantsToScores.max (RescalePollutantsToScores.not_None vals)
   = Ok hi /\
   lo < mid /\ mid < hi /\
   (exists minThresh maxThresh,
      RescalePollutantsToScores64.thresholds vals
      = Ok (minThresh, maxThresh) /\
      minThresh == 1 /\ maxThresh == 1 /\ maxThresh < lo) /\
   RescalePollutantsToScores64.row_score vals (PyNum lo)
   = Some (Ok (PyNum 0)) /\
   RescalePollutantsToScores64.row_score vals (PyNum mid)
   = Some (Ok (PyNum 0)) /\
   Double.gives
     (RescalePollutantsToScores64.outScore (PyNum lo) lo hi) 100 /\
   exists s,
     Double.gives
       (RescalePollutantsToScores64.outScore (PyNum mid) lo hi) s /\
     49 < s /\ s < 51) /\
  let vals' := [PyNum (d 0.1); PyNum (d 0.2); PyNum (d 0.3)] in
  (exists minThresh maxThresh,
     RescalePollutantsToScores64.thresholds vals'
     = Ok (minThresh, maxThresh) /\
     minThresh == d 0.1 /\ maxThresh == d 0.3) /\
  exists s,
    Double.gives
      (RescalePollutantsToScores64.row_score vals' (PyNum (d 0.1))) s /\
    s == 100 + 2 ^ (-46) /\ 100 < s.
Proof.
  cbv zeta. split.
  - split; [vm_compute; reflexivity|].
    split; [vm_compute; reflexivity|].
    split; [vm_compute; reflexivity|].
    split; [vm_compute; reflexivity|].
    split.
    { do 2 eexists. split; [vm_compute; reflexivity|].
      split; [vm_compute; reflexivity|].
      split; vm_compute; reflexivity. }
    split; [vm_compute; reflexivity|].
    split; [vm_compute; reflexivity|].
    split.
    { eexists. split; vm_compute; reflexivity. }
    eexists. split.
    { eexists. split; [vm_compute; reflexivity | reflexivity]. }
    split; vm_compute; reflexivity.
  - split.
    { do 2 eexists. split; [vm_compute; reflexivity|].
      split; vm_compute; reflexivity. }
    eexists. split.
    { eexists. split; [vm_compute; reflexivity | reflexivity]. }
    split; vm_compute; reflexivity.
Qed.

(** ** The aggregation loop of GetSurfaceWaterScore.py *)

Import GetSurfaceWaterScore.

Lemma path_eqb_eq (p q : path) : path_eqb p q = true -> p = q.
Proof.
  destruct p, q; cbn; intros H; try discriminate;
    apply String.eqb_eq in H; now subst.
Qed.

Lemma seq_eq {A B : Type} (m : M A) (k : A -> M B) (s : state) :
  seq m k s = match m s with
              | (s', Ok a) => k a s'
              | (s', Raise e) => (s', Raise e)
              end.
Proof. reflexivity. Qed.

Lemma for_myPoints_app (w : env) (pre rest : list point) (s : state) :
  for_myPoints w (pre ++ rest) s =
  match for_myPoints w pre s with
  | (s1, Ok _) => for_myPoints w rest s1
  | (s1, Raise e) => (s1, Raise e)
  end.
Proof.
  revert s. induction pre as [|myPt pre IH]; intros s; [reflexivity|].
  cbn [app for_myPoints]. unfold seq.
  destruct (try_except (process w myPt) (handler myPt) s) as [s1 [[]|e]];
    [apply IH | reflexivity].
Qed.

Ltac unfold_statements :=
  unfold RasterValToScoreNeg, RasterValToScorePos, RasterValToScore;
  unfold seq, lift, get, ret, raise, save, Raster, times,
    set_RunningMax, set_RunningSum, append_fail.

Ltac raised := let H := fresh in intros H; inversion H; subst; cbn; auto.

(** What a raising body leaves behind. *)
Lemma process_raises (w : env) (myPt : point) (s s1 : state) (e : exn) (n : Z) :
  Py.int (ptID myPt) = Ok n ->
  process w myPt s = (s1, Raise e) ->
  myFailList s1 = myFailList s /\
  RunningSum s1 = RunningSum s /\
  match gis_eucDist myPt with
  | Ok eucDist =>
      if writable w tmpEucDist && writable w tmpScore
         && writable w tmpMax && writable w maxRast
      then RunningMax s1 =
           CellStatistics [rescale score_neg 8046.72 80467.2 eucDist;
                           RunningMax s] MAXIMUM
      else RunningMax s1 = RunningMax s
  | Raise _ => RunningMax s1 = RunningMax s
  end.
Proof.
  intros Hn. unfold process. unfold_statements. rewrite Hn.
  destruct (gis_eucDist myPt) as [eucDist|e0]; cbn; [|raised].
  destruct (writable w tmpEucDist); cbn; [|raised].
  destruct (writable w tmpScore); cbn; [|raised].
  destruct (writable w tmpMax); cbn; [|raised].
  destruct (writable w maxRast); cbn; [|raised].
  destruct (ptPop myPt) as [|pop]; cbn; [raised|].
  destruct (writable w tmpSum); cbn; [|raised].
  destruct (writable w sumRast); cbn; [|raised].
  discriminate 1.
Qed.

Lemma handler_appends (myPt : point) (s : state) (n : Z) :
  Py.int (ptID myPt) = Ok n ->
  exists s2, handler myPt s = (s2, Ok tt) /\
    myFailList s2 = myFailList s ++ [str n] /\
    RunningMax s2 = RunningMax s /\ RunningSum s2 = RunningSum s /\
    data s2 = data s /\ failLog s2 = failLog s.
Proof.
  intros Hn. unfold handler. unfold_statements. rewrite Hn.
  eexists. split; [reflexivity|]. cbn. auto.
Qed.

(** C4 (amended).  Per-Feature Aggregation Loop, for a record whose
    identifier converts to an integer: when processing the record raises,
    the identifier is appended to the failure list, the loop continues
    with the next record, and the running sum is left unchanged.  The
    running maximum is left unchanged when the failure comes before the
    maximum has been saved (the GIS steps or one of the saves up to
    maxRast failed); a failure in the density step that follows leaves
    the running maximum already updated with the record's score. *)
Theorem C4_record_failure
    (w : env) (myPt : point) (rest : list point) (s : state) (n : Z) :
  Py.int (ptID myPt) = Ok n ->
  (exists e, snd (process w myPt s) = Raise e) ->
  exists s2,
    try_except (process w myPt) (handler myPt) s = (s2, Ok tt) /\
    myFailList s2 = myFailList s ++ [str n] /\
    RunningSum s2 = RunningSum s /\
    match gis_eucDist myPt with
    | Ok eucDist =>
        if writable w tmpEucDist && writable w tmpScore
           && writable w tmpMax && writable w maxRast
        then RunningMax s2 =
             CellStatistics [rescale score_neg 8046.72 80467.2 eucDist;
                             RunningMax s] MAXIMUM
        else RunningMax s2 = RunningMax s
    | Raise _ => RunningMax s2 = RunningMax s
    end /\
    for_myPoints w (myPt :: rest) s = for_myPoints w rest s2.
Proof.
  intros Hn [e He].
  destruct (process w myPt s) as [s1 r] eqn:Hp. cbn in He. subst r.
  destruct (process_raises w myPt s s1 e n Hn Hp) as (Hf & Hs & Hm).
  destruct (handler_appends myPt s1 n Hn) as (s2 & Hh & Hf2 & Hm2 & Hs2 & _).
  exists s2.
  assert (Ht : try_except (process w myPt) (handler myPt) s = (s2, Ok tt)).
  { unfold try_except. now rewrite Hp. }
  split; [assumption|].
  split; [now rewrite Hf2, Hf|].
  split; [now rewrite Hs2, Hs|].
  split; [now rewrite Hm2|].
  cbn [for_myPoints]. unfold seq. now rewrite Ht.
Qed.

Lemma C4_record_failure_witness :
  exists s2,
    try_except (process (Sample.w_ok []) Sample.pt_badgeom)
      (handler Sample.pt_badgeom) (start (Sample.w_ok [])) = (s2, Ok tt) /\
    myFailList s2 = [str 9] /\
    RunningSum s2 = RunningSum (start (Sample.w_ok [])) /\
    RunningMax s2 = RunningMax (start (Sample.w_ok [])).
Proof.
  destruct (C4_record_failure (Sample.w_ok []) Sample.pt_badgeom []
              (start (Sample.w_ok [])) 9 eq_refl
              (ex_intro _ ExecuteError eq_refl))
    as (s2 & H1 & H2 & H3 & H4 & _).
  exists s2. repeat split; assumption.
Defined.

(** C4 as stated fails for a record whose population is null: the
    distance subscore is merged and saved first, the weighting by the
    population then raises, and the handler logs the record with the
    running maximum already raised from 0 to the record's score 100. *)
Lemma C4_counterexample :
  let w := Sample.w_ok [Sample.pt_nullpop] in
  let s := start w in
  let s2 := fst (try_except (process w Sample.pt_nullpop)
                   (handler Sample.pt_nullpop) s) in
  snd (process w Sample.pt_nullpop s) = Raise TypeError /\
  myFailList s2 = ["8"%string] /\
  RunningMax s 0%nat = Some 0 /\
  exists c, RunningMax s2 0%nat = Some c /\ c == 100 /\ ~ c == 0.
Proof.
  cbv zeta. split; [reflexivity|]. split; [reflexivity|].
  split; [reflexivity|].
  eexists. split; [vm_compute; reflexivity|].
  split; [reflexivity | intros H; discriminate H].
Qed.

(** C10.  A record whose identifier does not convert to an integer (a
    null, say): the body raises on its first use of [str(int(myID))], the
    handler raises again on the same conversion, so nothing is appended
    to the failure list, the exception leaves the loop with the remaining
    records unprocessed, and the run ends in the outer handler. *)
Theorem C10_handler_reraises
    (w : env) (pre rest : list point) (myPt : point) (e : exn)
    (s s1 : state) :
  Py.int (ptID myPt) = Raise e ->
  for_myPoints w pre s = (s1, Ok tt) ->
  process w myPt s1 = (s1, Raise e) /\
  handler myPt s1 = (s1, Raise e) /\
  try_except (process w myPt) (handler myPt) s1 = (s1, Raise e) /\
  for_myPoints w (pre ++ myPt :: rest) s = (s1, Raise e) /\
  (swPts w = Ok (pre ++ myPt :: rest) ->
   baseline w (start w) = (s, Ok tt) ->
   run w = (s1, Raise e)).
Proof.
  intros He Hpre.
  assert (Hp : process w myPt s1 = (s1, Raise e)).
  { unfold process, seq, lift. now rewrite He. }
  assert (Hh : handler myPt s1 = (s1, Raise e)).
  { unfold handler, seq, lift. now rewrite He. }
  assert (Ht : try_except (process w myPt) (handler myPt) s1 = (s1, Raise e)).
  { unfold try_except. now rewrite Hp. }
  assert (Hl : for_myPoints w (pre ++ myPt :: rest) s = (s1, Raise e)).
  { rewrite for_myPoints_app, Hpre. cbn [for_myPoints]. unfold seq.
    now rewrite Ht. }
  repeat split; try assumption.
  intros Hpts Hb. unfold run, script, upto_FinScore.
  assert (Hu : upto_FinScore w (start w) = (s1, Raise e)).
  { unfold upto_FinScore. rewrite seq_eq. unfold lift at 1. rewrite Hpts.
    rewrite seq_eq, Hb. rewrite seq_eq, Hl. reflexivity. }
  rewrite seq_eq. fold (upto_FinScore w). now rewrite Hu.
Qed.

Lemma C10_handler_reraises_witness :
  run (Sample.w_ok [Sample.pt_nullid; Sample.pt_near])
  = (fst (baseline (Sample.w_ok [Sample.pt_nullid; Sample.pt_near])
            (start (Sample.w_ok [Sample.pt_nullid; Sample.pt_near]))),
     Raise TypeError).
Proof.
  set (w := Sample.w_ok [Sample.pt_nullid; Sample.pt_near]).
  destruct (C10_handler_reraises w [] [Sample.pt_near] Sample.pt_nullid
              TypeError (fst (baseline w (start w)))
              (fst (baseline w (start w))) eq_refl eq_refl)
    as (_ & _ & _ & _ & H).
  apply H; reflexivity.
Defined.

(** ** What the run leaves at a path *)

Section Keeps.

Variables (w : env) (p : path).

Lemma keeps_ret {A : Type} (a : A) : keeps p (ret a).
Proof. intros s. split; reflexivity. Qed.

Lemma keeps_raise {A : Type} (e : exn) : keeps p (@raise A e).
Proof. intros s. split; reflexivity. Qed.

Lemma keeps_lift {A : Type} (r : result A) : keeps p (lift r).
Proof. intros s. split; reflexivity. Qed.

Lemma keeps_get {A : Type} (f : state -> A) : keeps p (get f).
Proof. intros s. split; reflexivity. Qed.

Lemma keeps_set_RunningMax (r : raster) : keeps p (set_RunningMax r).
Proof. intros s. split; reflexivity. Qed.

Lemma keeps_set_RunningSum (r : raster) : keeps p (set_RunningSum r).
Proof. intros s. split; reflexivity. Qed.

Lemma keeps_append_fail (x : string) : keeps p (append_fail x).
Proof. intros s. split; reflexivity. Qed.

Lemma keeps_Raster (q : path) : keeps p (Raster q).
Proof. intros s. unfold Raster. destruct (data s q); split; reflexivity. Qed.

Lemma keeps_seq {A B : Type} (m : M A) (k : A -> M B) :
  keeps p m -> (forall a, keeps p (k a)) -> keeps p (seq m k).
Proof.
  intros Hm Hk s. unfold seq. specialize (Hm s).
  destruct (m s) as [s' [a|e]]; cbn in Hm.
  - destruct (Hk a s') as [H1 H2]. destruct Hm as [H3 H4].
    split; congruence.
  - exact Hm.
Qed.

Lemma keeps_try {A : Type} (body handler : M A) :
  keeps p body -> keeps p handler -> keeps p (try_except body handler).
Proof.
  intros Hb Hh s. unfold try_except. specialize (Hb s).
  destruct (body s) as [s' [a|e]]; cbn in Hb.
  - exact Hb.
  - destruct (Hh s') as [H1 H2]. destruct Hb as [H3 H4].
    split; congruence.
Qed.

Lemma keeps_save (r : raster) (q : path) : safe w p q -> keeps p (save w r q).
Proof.
  intros Hq s. unfold save.
  destruct (writable w q) eqn:Ew; [|split; reflexivity].
  destruct Hq as [Hq | Hq]; [congruence|].
  cbn. unfold write. rewrite Hq. split; reflexivity.
Qed.

Lemma keeps_RasterValToScore (f : Q -> Q -> Q -> Q) (a b : path) (x y : Q) :
  safe w p b -> keeps p (RasterValToScore f w a x y b).
Proof.
  intros Hb. unfold RasterValToScore. apply keeps_seq; [apply keeps_Raster|].
  intros r. destruct (Qeq_bool x y); [apply keeps_raise | now apply keeps_save].
Qed.

(** Every dataset the script writes before line 231 is safe for [p]. *)
Hypothesis safe_names :
  forall q, path_eqb q (InScratchKeep "out_swScore") = false -> safe w p q.

Ltac keeps_step :=
  first
    [ apply keeps_seq; [|intros]
    | apply keeps_try
    | apply keeps_ret | apply keeps_raise | apply keeps_lift
    | apply keeps_get | apply keeps_set_RunningMax
    | apply keeps_set_RunningSum | apply keeps_append_fail
    | apply keeps_Raster
    | apply keeps_save; apply safe_names; reflexivity
    | apply keeps_RasterValToScore; apply safe_names; reflexivity ].

Lemma keeps_process (myPt : point) : keeps p (process w myPt).
Proof.
  unfold process, RasterValToScoreNeg. repeat keeps_step.
Qed.

Lemma keeps_handler (myPt : point) : keeps p (handler myPt).
Proof. unfold handler. repeat keeps_step. Qed.

Lemma keeps_for_myPoints (myPoints : list point) :
  keeps p (for_myPoints w myPoints).
Proof.
  induction myPoints as [|myPt rest IH]; cbn [for_myPoints].
  - apply keeps_ret.
  - apply keeps_seq; [|intros; exact IH].
    apply keeps_try; [apply keeps_process | apply keeps_handler].
Qed.

Lemma keeps_save_subscores : keeps p (save_subscores w).
Proof.
  unfold save_subscores, RasterValToScorePos.
  repeat keeps_step.
Qed.

Lemma keeps_upto_FinScore : keeps p (upto_FinScore w).
Proof.
  unfold upto_FinScore, baseline.
  apply keeps_seq; [apply keeps_lift|]. intros myPoints.
  apply keeps_seq; [repeat keeps_step|]. intros _.
  apply keeps_seq; [apply keeps_for_myPoints|]. intros _.
  apply keeps_seq; [apply keeps_save_subscores|]. intros sub.
  repeat keeps_step.
Qed.

End Keeps.

Lemma path_eqb_sym (p q : path) : path_eqb p q = path_eqb q p.
Proof. destruct p, q; cbn; try reflexivity; apply String.eqb_sym. Qed.

Lemma unwritable_safe (w : env) (p q : path) :
  writable w p = false -> safe w p q.
Proof.
  intros Hp. destruct (path_eqb p q) eqn:E; [left | now right].
  apply path_eqb_eq in E. now subst.
Qed.

Lemma save_FinScore_raises (w : env) (FinScore : raster) (s : state) :
  writable w (InWorkspace (out_fname w)) = false ->
  save_FinScore w FinScore s = (s, Raise NameError).
Proof.
  intros Hw. unfold save_FinScore, try_except, save. now rewrite Hw.
Qed.

(** The run, as the part before line 231 left it. *)
Lemma run_unwritable (w : env) :
  writable w (InWorkspace (out_fname w)) = false ->
  fst (run w) = fst (upto_FinScore w (start w)) /\
  snd (run w) =
    match snd (upto_FinScore w (start w)) with
    | Ok _ => Raise NameError
    | Raise e => Raise e
    end.
Proof.
  intros Hw. unfold run, script. rewrite seq_eq.
  destruct (upto_FinScore w (start w)) as [s1 [F|e]]; [|split; reflexivity].
  rewrite seq_eq, (save_FinScore_raises w F s1 Hw). split; reflexivity.
Qed.

(** C9.  When saving [FinScore] to the requested output path fails, the
    fall-back evaluates the unbound name [RFinScore]: the [except] branch
    itself raises [NameError] with nothing saved, the exception reaches
    the outer handler, and the run leaves no final output raster, neither
    at the requested path nor at the scratch fall-back path (nor a
    failure log). *)
Theorem C9_final_fallback_broken (w : env) :
  writable w (InWorkspace (out_fname w)) = false ->
  (forall FinScore s, save_FinScore w FinScore s = (s, Raise NameError)) /\
  (forall s1 FinScore,
     upto_FinScore w (start w) = (s1, Ok FinScore) ->
     run w = (s1, Raise NameError)) /\
  (exists e, snd (run w) = Raise e) /\
  data (fst (run w)) (InWorkspace (out_fname w))
    = datasets0 w (InWorkspace (out_fname w)) /\
  data (fst (run w)) (InScratchKeep "out_swScore")
    = datasets0 w (InScratchKeep "out_swScore") /\
  failLog (fst (run w)) = None.
Proof.
  intros Hw. destruct (run_unwritable w Hw) as [Hs Hr].
  split; [intros F s; now apply save_FinScore_raises|].
  split.
  { intros s1 F Hu. rewrite Hu in Hs, Hr. cbn in Hs, Hr.
    destruct (run w) as [s' r]. cbn in Hs, Hr. now subst. }
  split.
  { rewrite Hr. destruct (snd (upto_FinScore w (start w))); eauto. }
  rewrite Hs.
  assert (K1 : keeps (InWorkspace (out_fname w)) (upto_FinScore w)).
  { apply keeps_upto_FinScore. intros q _. now apply unwritable_safe. }
  assert (K2 : keeps (InScratchKeep "out_swScore") (upto_FinScore w)).
  { apply keeps_upto_FinScore. intros q Hq. right.
    now rewrite path_eqb_sym. }
  destruct (K1 (start w)) as [H1 H2]. destruct (K2 (start w)) as [H3 _].
  repeat split; assumption.
Qed.

Lemma C9_final_fallback_broken_witness :
  snd (run (Sample.w_locked [Sample.pt_near])) = Raise NameError /\
  data (fst (run (Sample.w_locked [Sample.pt_near]))) (InWorkspace "swScore")
    = None.
Proof.
  set (w := Sample.w_locked [Sample.pt_near]).
  destruct (C9_final_fallback_broken w eq_refl) as (_ & H & _ & Hd & _).
  split; [|exact Hd].
  assert (E : exists F, snd (upto_FinScore w (start w)) = Ok F)
    by (vm_compute; eexists; reflexivity).
  destruct E as [F E].
  rewrite (H (fst (upto_FinScore w (start w))) F); [reflexivity|].
  rewrite <- E. apply surjective_pairing.
Defined.

(** ** Further properties of the two multiplier scripts *)

Lemma leb_cases (a b : Q) :
  (a <= b /\ Py.leb a b = true) \/ (b < a /\ Py.leb a b = false).
Proof.
  destruct (Qlt_le_dec b a) as [H | H].
  - right. split; [assumption | now apply leb_false].
  - left. split; [assumption | now apply leb_true].
Qed.

(** Every data cell of the output falls under one of the three branches,
    tested in the order of the nested [Con]. *)
Lemma linear_cell_cases (in_Integ : raster) (Y X1 X2 : Q) :
  ~ X2 == X1 ->
  exists r, GetIntegLinearTrunc.outRast in_Integ Y X1 X2 = Ok r /\
    forall i,
      match in_Integ i with
      | None => r i = None
      | Some v =>
          (v <= X1 /\ r i = Some 50) \/
          (X1 < v /\ X2 <= v /\ r i = Some 100) \/
          (X1 < v /\ v < X2 /\
           r i = Some ((100 - Y) / (X2 - X1) * v
                       + (100 - (100 - Y) / (X2 - X1) * X2)))
      end.
Proof.
  intros Hne. unfold GetIntegLinearTrunc.outRast.
  rewrite (linear_Slope Y X1 X2 Hne). cbn [Py.bind].
  eexists. split; [reflexivity|]. intros i.
  unfold Con, le_, ge_, shift, scale.
  destruct (in_Integ i) as [v|]; [|reflexivity]. cbn [option_map].
  destruct (leb_cases v X1) as [[H1 ->] | [H1 ->]]; [now left|].
  destruct (leb_cases X2 v) as [[H2 ->] | [H2 ->]]; right; [left | right]; auto.
Qed.

(** X1.  With [X2 == X1] the script stops on the first division: it
    raises [ZeroDivisionError] and writes no output raster. *)
Theorem linear_trunc_zero_division (in_Integ : raster) (Y X1 X2 : Q) :
  X2 == X1 ->
  GetIntegLinearTrunc.outRast in_Integ Y X1 X2 = Raise ZeroDivisionError.
Proof.
  intros H. unfold GetIntegLinearTrunc.outRast.
  rewrite div_zero by lra. reflexivity.
Qed.

Lemma linear_trunc_zero_division_witness :
  GetIntegLinearTrunc.outRast (const 30) 20 10 10 = Raise ZeroDivisionError.
Proof. apply linear_trunc_zero_division. reflexivity. Defined.

(** X2.  For [X2 =/= X1] the output raster exists and has NoData exactly
    in the cells where the integrity raster has NoData. *)
Theorem linear_trunc_nodata (in_Integ : raster) (Y X1 X2 : Q) :
  ~ X2 == X1 ->
  exists r, GetIntegLinearTrunc.outRast in_Integ Y X1 X2 = Ok r /\
            forall i, r i = None <-> in_Integ i = None.
Proof.
  intros Hne.
  destruct (linear_cell_cases in_Integ Y X1 X2 Hne) as (r & Hr & Hc).
  exists r. split; [assumption|]. intros i. specialize (Hc i).
  destruct (in_Integ i) as [v|]; [|tauto].
  split; [|discriminate].
  intros Hn. destruct Hc as [[_ H] | [(_ & _ & H) | (_ & _ & H)]];
    rewrite H in Hn; discriminate.
Qed.

Lemma linear_trunc_nodata_witness :
  exists r, GetIntegLinearTrunc.outRast
              (fun i => match i with O => None | S _ => Some 30 end) 20 10 50
            = Ok r /\ r 0%nat = None.
Proof.
  assert (Hne : ~ (50 : Q) == 10) by (intros H; discriminate H).
  destruct (linear_trunc_nodata
              (fun i => match i with O => None | S _ => Some 30 end)
              20 10 50 Hne) as (r & Hr & Hc).
  exists r. split; [exact Hr|]. now apply Hc.
Defined.

(** X5.  With the inflection points reversed ([X2 < X1]) the
    interpolated raster is never used: a data cell scores 50 up to [X1]
    and 100 above it. *)
Theorem linear_trunc_reversed (in_Integ : raster) (Y X1 X2 : Q) :
  X2 < X1 ->
  exists r, GetIntegLinearTrunc.outRast in_Integ Y X1 X2 = Ok r /\
    forall i v, in_Integ i = Some v ->
      (v <= X1 -> r i = Some 50) /\ (X1 < v -> r i = Some 100).
Proof.
  intros Hlt.
  assert (Hne : ~ X2 == X1) by lra.
  destruct (linear_cell_cases in_Integ Y X1 X2 Hne) as (r & Hr & Hc).
  exists r. split; [assumption|]. intros i v Hv. specialize (Hc i).
  rewrite Hv in Hc.
  destruct Hc as [[A1 A] | [(A1 & A2 & A) | (A1 & A2 & A)]];
    split; intros H; try assumption; lra.
Qed.

Lemma linear_trunc_reversed_witness :
  exists r, GetIntegLinearTrunc.outRast (const 30) 20 50 10 = Ok r /\
            r 0%nat = Some 50.
Proof.
  assert (H1 : (10 : Q) < 50) by reflexivity.
  destruct (linear_trunc_reversed (const 30) 20 50 10 H1) as (r & Hr & Hc).
  exists r. split; [exact Hr|].
  apply (Hc 0%nat 30 eq_refl). intros H; discriminate H.
Defined.

Lemma ltb_cases (a b : Q) :
  (a < b /\ Py.ltb a b = true) \/ (b <= a /\ Py.ltb a b = false).
Proof.
  destruct (Qlt_le_dec a b) as [H | H].
  - left. split; [assumption | now apply ltb_true].
  - right. split; [assumption | now apply ltb_false].
Qed.

(** The branch of the nested [Con] that a data cell of the hump script
    falls under, for any inflection points with non-zero widths. *)
Lemma hump_cell_cases (in_Integ : raster) (Y X1 X2 X3 X4 : Q) :
  ~ X2 == X1 -> ~ X3 == X4 ->
  exists r, GetIntegMultHumpLinear.outRast in_Integ Y X1 X2 X3 X4 = Ok r /\
    forall i,
      match in_Integ i with
      | None => r i = None
      | Some v =>
          ((v <= X1 \/ X4 <= v) /\ r i = Some 50) \/
          (X1 < v /\ v < X4 /\ X2 <= v /\ v <= X3 /\ r i = Some 100) \/
          (X1 < v /\ v < X4 /\ v < X2 /\
           r i = Some ((100 - Y) / (X2 - X1) * v
                       + (100 - (100 - Y) / (X2 - X1) * X2))) \/
          (X1 < v /\ v < X4 /\ X2 <= v /\ X3 < v /\
           r i = Some ((100 - Y) / (X3 - X4) * v
                       + (100 - (100 - Y) / (X3 - X4) * X3)))
      end.
Proof.
  intros H21 H34. unfold GetIntegMultHumpLinear.outRast.
  rewrite (div_nonzero (100 - Y) (X2 - X1)) by lra. cbn [Py.bind].
  rewrite (div_nonzero (100 - Y) (X3 - X4)) by lra. cbn [Py.bind].
  eexists. split; [reflexivity|]. intros i.
  unfold Con, or_, and_, lift2, le_, ge_, lt_, shift, scale.
  destruct (in_Integ i) as [v|]; [|reflexivity]. cbn [option_map].
  destruct (leb_cases v X1) as [[H1 ->] | [H1 ->]]; [left; auto|].
  destruct (leb_cases X4 v) as [[H4 ->] | [H4 ->]]; [left; auto|].
  cbn [orb]. right.
  destruct (leb_cases X2 v) as [[H2 ->] | [H2 ->]]; cbn [andb].
  - destruct (leb_cases v X3) as [[H3 ->] | [H3 ->]].
    + left. auto.
    + right. right. rewrite (ltb_false v X2 H2). auto.
  - right. left. rewrite (ltb_true v X2 H2). auto.
Qed.

(** X6.  The hump script divides twice before it touches the raster: with
    [X2 == X1] or [X3 == X4] it raises [ZeroDivisionError]. *)
Theorem hump_zero_division (in_Integ : raster) (Y X1 X2 X3 X4 : Q) :
  X2 == X1 \/ X3 == X4 ->
  GetIntegMultHumpLinear.outRast in_Integ Y X1 X2 X3 X4
  = Raise ZeroDivisionError.
Proof.
  intros H. unfold GetIntegMultHumpLinear.outRast.
  destruct (Qeq_dec X2 X1) as [E | E].
  - rewrite (div_zero (100 - Y) (X2 - X1)) by lra. reflexivity.
  - destruct H as [H | H]; [contradiction|].
    rewrite (div_nonzero (100 - Y) (X2 - X1)) by lra. cbn [Py.bind].
    rewrite (div_zero (100 - Y) (X3 - X4)) by lra. reflexivity.
Qed.

Lemma hump_zero_division_witness :
  GetIntegMultHumpLinear.outRast (const 40) 20 10 30 60 60
  = Raise ZeroDivisionError.
Proof. apply hump_zero_division. right. reflexivity. Defined.

(** X7.  For [X2 =/= X1] and [X3 =/= X4] the output raster of the hump
    script exists and has NoData exactly in the cells where the
    integrity raster has NoData. *)
Theorem hump_nodata (in_Integ : raster) (Y X1 X2 X3 X4 : Q) :
  ~ X2 == X1 -> ~ X3 == X4 ->
  exists r, GetIntegMultHumpLinear.outRast in_Integ Y X1 X2 X3 X4 = Ok r /\
            forall i, r i = None <-> in_Integ i = None.
Proof.
  intros N1 N2.
  destruct (hump_cell_cases in_Integ Y X1 X2 X3 X4 N1 N2) as (r & Hr & Hc).
  exists r. split; [assumption|].
  intros i. specialize (Hc i). destruct (in_Integ i) as [v|]; [|tauto].
  split; [|discriminate]. intros Hn.
  destruct Hc as [[_ H] | [(_ & _ & _ & _ & H) | [(_ & _ & _ & H) |
                 (_ & _ & _ & _ & H)]]]; rewrite H in Hn; discriminate.
Qed.

Lemma hump_nodata_witness :
  exists r, GetIntegMultHumpLinear.outRast
              (fun i => match i with O => None | S _ => Some 70 end)
              20 10 30 60 90
            = Ok r /\ r 0%nat = None.
Proof.
  assert (N1 : ~ (30 : Q) == 10) by (intros H; discriminate H).
  assert (N2 : ~ (60 : Q) == 90) by (intros H; discriminate H).
  destruct (hump_nodata
              (fun i => match i with O => None | S _ => Some 70 end)
              20 10 30 60 90 N1 N2) as (r & Hr & Hc).
  exists r. split; [exact Hr|]. now apply Hc.
Defined.

(** X8.  For [X1 < X2 <= X3 < X4] the hump script and the linear
    truncated script (run with the same [Y], [X1], [X2]) give the same
    output in every cell whose value does not exceed [X3], and in every
    NoData cell. *)
Theorem hump_agrees_with_linear_trunc (in_Integ : raster) (Y X1 X2 X3 X4 : Q) :
  X1 < X2 -> X2 <= X3 -> X3 < X4 ->
  exists rh rl,
    GetIntegMultHumpLinear.outRast in_Integ Y X1 X2 X3 X4 = Ok rh /\
    GetIntegLinearTrunc.outRast in_Integ Y X1 X2 = Ok rl /\
    forall i, (forall v, in_Integ i = Some v -> v <= X3) -> rh i = rl i.
Proof.
  intros H12 H23 H34.
  assert (N1 : ~ X2 == X1) by lra. assert (N2 : ~ X3 == X4) by lra.
  destruct (hump_cell_cases in_Integ Y X1 X2 X3 X4 N1 N2) as (rh & Hh & Ch).
  destruct (linear_cell_cases in_Integ Y X1 X2 N1) as (rl & Hl & Cl).
  exists rh, rl. split; [assumption|]. split; [assumption|].
  intros i Hi. specialize (Ch i). specialize (Cl i).
  destruct (in_Integ i) as [v|]; [|congruence].
  specialize (Hi v eq_refl).
  destruct Ch as [[A H] | [(A1 & A4 & A2 & A3 & H) | [(A1 & A4 & A2 & H) |
                 (A1 & A4 & A2 & A3 & H)]]];
    destruct Cl as [[B1 B] | [(B1 & B2 & B) | (B1 & B2 & B)]];
    rewrite H, B; try reflexivity; lra.
Qed.

Lemma hump_agrees_with_linear_trunc_witness :
  exists rh rl,
    GetIntegMultHumpLinear.outRast (const 20) 20 10 30 60 90 = Ok rh /\
    GetIntegLinearTrunc.outRast (const 20) 20 10 30 = Ok rl /\
    rh 0%nat = rl 0%nat.
Proof.
  assert (H12 : (10 : Q) < 30) by reflexivity.
  assert (H23 : (30 : Q) <= 60) by (intros H; discriminate H).
  assert (H34 : (60 : Q) < 90) by reflexivity.
  destruct (hump_agrees_with_linear_trunc (const 20) 20 10 30 60 90
              H12 H23 H34) as (rh & rl & Hh & Hl & Hc).
  exists rh, rl. split; [exact Hh|]. split; [exact Hl|].
  apply Hc. intros v [= <-]. intros H; discriminate H.
Defined.

(** X9.  When the outer inflection points overlap ([X4 <= X1], widths not
    zero) the first test of the hump script holds for every value: all
    data cells score 50. *)
Theorem hump_outer_points_overlap (in_Integ : raster) (Y X1 X2 X3 X4 : Q) :
  ~ X2 == X1 -> ~ X3 == X4 -> X4 <= X1 ->
  exists r, GetIntegMultHumpLinear.outRast in_Integ Y X1 X2 X3 X4 = Ok r /\
            forall i v, in_Integ i = Some v -> r i = Some 50.
Proof.
  intros N1 N2 H41.
  destruct (hump_cell_cases in_Integ Y X1 X2 X3 X4 N1 N2) as (r & Hr & Hc).
  exists r. split; [assumption|]. intros i v Hv. specialize (Hc i).
  rewrite Hv in Hc.
  destruct Hc as [[_ H] | [(A1 & A4 & _) | [(A1 & A4 & _) | (A1 & A4 & _)]]];
    [assumption | lra | lra | lra].
Qed.

Lemma hump_outer_points_overlap_witness :
  exists r, GetIntegMultHumpLinear.outRast (const 55) 20 60 70 80 50 = Ok r /\
            r 0%nat = Some 50.
Proof.
  assert (N1 : ~ (70 : Q) == 60) by (intros H; discriminate H).
  assert (N2 : ~ (80 : Q) == 50) by (intros H; discriminate H).
  assert (H41 : (50 : Q) <= 60) by (intros H; discriminate H).
  destruct (hump_outer_points_overlap (const 55) 20 60 70 80 50 N1 N2 H41)
    as (r & Hr & Hc).
  exists r. split; [exact Hr | exact (Hc 0%nat 55 eq_refl)].
Defined.

(** ** Further properties of the range scorers *)

(** X14.  With the thresholds reversed ([maxThresh < minThresh]) the
    division is never reached and nothing is raised: the positive scorer
    returns 0 below [minThresh] and 100 from [minThresh] on, the negative
    scorer 100 below and 0 from [minThresh] on. *)
Theorem range_scores_reversed_thresholds (minThresh maxThresh v : Q) :
  maxThresh < minThresh ->
  let pos := KfactToScores.outScore (PyNum v) minThresh maxThresh in
  let neg := RescalePollutantsToScores.outScore (PyNum v) minThresh maxThresh in
  (v < minThresh -> pos = Ok (PyNum 0) /\ neg = Ok (PyNum 100)) /\
  (minThresh <= v -> pos = Ok (PyNum 100) /\ neg = Ok (PyNum 0)).
Proof.
  intros Hr pos neg. unfold pos, neg. split; intros H.
  - rewrite pos_below, neg_below by assumption. auto.
  - rewrite pos_above, neg_above by lra. auto.
Qed.

Lemma range_scores_reversed_thresholds_witness :
  KfactToScores.outScore (PyNum 15) 24 8 = Ok (PyNum 0) /\
  RescalePollutantsToScores.outScore (PyNum 15) 24 8 = Ok (PyNum 100).
Proof.
  assert (Hr : (8 : Q) < 24) by reflexivity.
  destruct (range_scores_reversed_thresholds 24 8 15 Hr) as [H _].
  apply H. reflexivity.
Defined.

(** ** Further properties of the data-driven thresholds *)

Module ThresholdFacts.
Import RescalePollutantsToScores.

Lemma not_None_nil (vals : list value) :
  (forall v, ~ In (PyNum v) vals) -> not_None vals = [].
Proof.
  induction vals as [|x vals IH]; intros H; [reflexivity|].
  unfold not_None in *. cbn [flat_map].
  destruct x as [|q].
  - cbn. apply IH. intros v Hv. apply (H v). now right.
  - exfalso. apply (H q). now left.
Qed.

Lemma In_not_None (vals : list value) (v : Q) :
  In v (not_None vals) -> In (PyNum v) vals.
Proof.
  unfold not_None. intros H. apply in_flat_map in H.
  destruct H as (x & Hx & Hv). destruct x as [|q]; [destruct Hv|].
  destruct Hv as [<- | []]. assumption.
Qed.

Lemma fold_min_In (l : list Q) (x : Q) :
  In (fold_left (fun m y => if Py.ltb y m then y else m) l x) (x :: l).
Proof.
  revert x. induction l as [|y l IH]; intros x; cbn [fold_left].
  - now left.
  - destruct (IH (if Py.ltb y x then y else x)) as [H | H].
    + rewrite <- H. destruct (Py.ltb y x); [right; now left | now left].
    + right. now right.
Qed.

Lemma fold_max_In (l : list Q) (x : Q) :
  In (fold_left (fun m y => if Py.ltb m y then y else m) l x) (x :: l).
Proof.
  revert x. induction l as [|y l IH]; intros x; cbn [fold_left].
  - now left.
  - destruct (IH (if Py.ltb x y then y else x)) as [H | H].
    + rewrite <- H. destruct (Py.ltb x y); [right; now left | now left].
    + right. now right.
Qed.

Lemma min_In (l : list Q) (m : Q) : min l = Ok m -> In m l.
Proof.
  destruct l as [|x l]; [discriminate|]. intros [= <-]. apply fold_min_In.
Qed.

Lemma max_In (l : list Q) (m : Q) : max l = Ok m -> In m l.
Proof.
  destruct l as [|x l]; [discriminate|]. intros [= <-]. apply fold_max_In.
Qed.

End ThresholdFacts.

(** X15.  A column without any non-null value has no thresholds:
    [min(vals)] raises [ValueError] and no row is scored, not even a
    null one. *)
Theorem thresholds_of_null_column (vals : list value) (coeff : value) :
  (forall v, ~ In (PyNum v) vals) ->
  RescalePollutantsToScores.thresholds vals = Raise ValueError /\
  RescalePollutantsToScores.row_score vals coeff = Raise ValueError.
Proof.
  intros H. apply ThresholdFacts.not_None_nil in H.
  unfold RescalePollutantsToScores.row_score,
    RescalePollutantsToScores.thresholds.
  rewrite H. split; reflexivity.
Qed.

Lemma thresholds_of_null_column_witness :
  RescalePollutantsToScores.thresholds [PyNone; PyNone] = Raise ValueError /\
  RescalePollutantsToScores.row_score [PyNone; PyNone] PyNone
    = Raise ValueError.
Proof.
  apply thresholds_of_null_column.
  intros v [H | [H | []]]; discriminate H.
Defined.

(** X16.  For a column with at least one non-null value the observed
    minimum and maximum exist, are values of the column, bound every
    non-null value of it, and the minimum is not above the maximum. *)
Theorem observed_min_max (vals : list value) (v : Q) :
  In (PyNum v) vals ->
  exists cMin cMax,
    RescalePollutantsToScores.min (RescalePollutantsToScores.not_None vals)
      = Ok cMin /\
    RescalePollutantsToScores.max (RescalePollutantsToScores.not_None vals)
      = Ok cMax /\
    In (PyNum cMin) vals /\ In (PyNum cMax) vals /\
    cMin <= cMax /\
    forall x, In (PyNum x) vals -> cMin <= x /\ x <= cMax.
Proof.
  intros Hv. pose proof (Thresholds.not_None_In vals v Hv) as Hn.
  destruct (Thresholds.min_is_lower_bound _ _ Hn) as (cMin & Hmin & Hlo).
  destruct (Thresholds.max_is_upper_bound _ _ Hn) as (cMax & Hmax & Hhi).
  exists cMin, cMax. split; [assumption|]. split; [assumption|].
  split; [apply ThresholdFacts.In_not_None, ThresholdFacts.min_In, Hmin|].
  split; [apply ThresholdFacts.In_not_None, ThresholdFacts.max_In, Hmax|].
  split; [lra|].
  intros x Hx. apply Thresholds.not_None_In in Hx.
  destruct (Thresholds.min_is_lower_bound _ _ Hx) as (m1 & E1 & L1).
  destruct (Thresholds.max_is_upper_bound _ _ Hx) as (m2 & E2 & L2).
  rewrite Hmin in E1. rewrite Hmax in E2.
  injection E1 as <-. injection E2 as <-. auto.
Qed.

Lemma observed_min_max_witness :
  exists cMin cMax,
    RescalePollutantsToScores.min
      (RescalePollutantsToScores.not_None [PyNum 3; PyNone; PyNum 1; PyNum 2])
      = Ok cMin /\
    RescalePollutantsToScores.max
      (RescalePollutantsToScores.not_None [PyNum 3; PyNone; PyNum 1; PyNum 2])
      = Ok cMax /\
    cMin <= cMax.
Proof.
  assert (Hin : In (PyNum 2) [PyNum 3; PyNone; PyNum 1; PyNum 2])
    by (right; right; right; left; reflexivity).
  destruct (observed_min_max _ _ Hin) as (a & b & Ha & Hb & _ & _ & Hab & _).
  exists a, b. auto.
Defined.

(** X17.  A column whose non-null values are all equal has
    [minThresh == maxThresh]: when the two thresholds are printed
    exactly, scoring any non-null row raises [ZeroDivisionError], while a
    null row still scores null. *)
Theorem constant_column_divides_by_zero (vals : list value) (c : Q) :
  In (PyNum c) vals ->
  (forall v, In (PyNum v) vals -> v == c) ->
  exists cMin cMax,
    RescalePollutantsToScores.min (RescalePollutantsToScores.not_None vals)
      = Ok cMin /\
    RescalePollutantsToScores.max (RescalePollutantsToScores.not_None vals)
      = Ok cMax /\
    (RescalePollutantsToScores.str_float cMin == cMin ->
     RescalePollutantsToScores.str_float cMax == cMax ->
     RescalePollutantsToScores.row_score vals PyNone = Ok PyNone /\
     forall v, In (PyNum v) vals ->
       RescalePollutantsToScores.row_score vals (PyNum v)
       = Raise ZeroDivisionError).
Proof.
  intros Hc Hall.
  pose proof (Thresholds.not_None_In vals c Hc) as Hn.
  destruct (Thresholds.min_is_lower_bound _ _ Hn) as (cMin & Hmin & _).
  destruct (Thresholds.max_is_upper_bound _ _ Hn) as (cMax & Hmax & _).
  exists cMin, cMax. split; [assumption|]. split; [assumption|].
  intros Emin Emax.
  assert (Imin : cMin == c)
    by (apply Hall, ThresholdFacts.In_not_None, ThresholdFacts.min_In, Hmin).
  assert (Imax : cMax == c)
    by (apply Hall, ThresholdFacts.In_not_None, ThresholdFacts.max_In, Hmax).
  unfold RescalePollutantsToScores.row_score,
    RescalePollutantsToScores.thresholds.
  rewrite Hmin, Hmax. cbn [Py.bind fst snd].
  split; [reflexivity|].
  intros v Hv. specialize (Hall v Hv).
  rewrite neg_inside by lra. now rewrite div_zero by lra.
Qed.

Lemma constant_column_divides_by_zero_witness :
  RescalePollutantsToScores.row_score [PyNum 2; PyNone; PyNum 2] (PyNum 2)
  = Raise ZeroDivisionError.
Proof.
  assert (Hin : In (PyNum 2) [PyNum 2; PyNone; PyNum 2])
    by (left; reflexivity).
  assert (Hall : forall v, In (PyNum v) [PyNum 2; PyNone; PyNum 2] -> v == 2).
  { intros v [H | [H | [H | []]]]; try discriminate H;
      injection H as <-; reflexivity. }
  destruct (constant_column_divides_by_zero _ 2 Hin Hall)
    as (a & b & Ha & Hb & H).
  injection Ha as <-. injection Hb as <-.
  destruct H as [_ H]; [reflexivity | reflexivity |].
  apply H. left. reflexivity.
Defined.

(** ** Integer values pass through the expression text unchanged *)

Module StrFloat.
Import RescalePollutantsToScores.

Lemma ltb_inject_Z (a b : Z) : Py.ltb (inject_Z a) (inject_Z b) = (a <? b)%Z.
Proof.
  destruct (ltb_cases (inject_Z a) (inject_Z b)) as [[H ->] | [H ->]];
    symmetry.
  - apply Z.ltb_lt. now rewrite Zlt_Qlt.
  - apply Z.ltb_ge. now rewrite Zle_Qle.
Qed.

Lemma leb_inject_Z (a b : Z) : Py.leb (inject_Z a) (inject_Z b) = (a <=? b)%Z.
Proof.
  destruct (leb_cases (inject_Z a) (inject_Z b)) as [[H ->] | [H ->]];
    symmetry.
  - apply Z.leb_le. now rewrite Zle_Qle.
  - apply Z.leb_gt. now rewrite Zlt_Qlt.
Qed.

Lemma normalise_integer (fuel : nat) (z k : Z) :
  (1 <= z < 10 ^ 12)%Z ->
  (10 ^ 11 <= z * 10 ^ Z.of_nat fuel)%Z ->
  exists j, (0 <= j)%Z /\
    normalise fuel (inject_Z z) k = (inject_Z (z * 10 ^ j), (k + j)%Z) /\
    (10 ^ 11 <= z * 10 ^ j < 10 ^ 12)%Z.
Proof.
  revert z k. induction fuel as [|n IH]; intros z k Hz Hf.
  - exists 0%Z. cbn [normalise]. change (Z.of_nat 0) with 0%Z in Hf.
    rewrite Z.pow_0_r, Z.mul_1_r in *. rewrite Z.add_0_r.
    split; [lia|]. split; [reflexivity | lia].
  - cbn [normalise]. rewrite ltb_inject_Z.
    destruct (z <? 10 ^ 11)%Z eqn:E.
    + apply Z.ltb_lt in E.
      change (inject_Z z * 10) with (inject_Z (z * 10)).
      destruct (IH (z * 10)%Z (k + 1)%Z) as (j & Hj & Hn & Hb).
      * lia.
      * rewrite Nat2Z.inj_succ, Z.pow_succ_r in Hf by lia. lia.
      * exists (j + 1)%Z. split; [lia|].
        assert (Ep : (z * 10 * 10 ^ j = z * 10 ^ (j + 1))%Z).
        { rewrite Z.pow_add_r by lia. rewrite Z.pow_1_r. ring. }
        rewrite Hn, Ep. split; [f_equal; lia | lia].
    + apply Z.ltb_ge in E. rewrite leb_inject_Z.
      destruct (10 ^ 12 <=? z)%Z eqn:E2; [apply Z.leb_le in E2; lia|].
      exists 0%Z. rewrite Z.pow_0_r, Z.mul_1_r, Z.add_0_r.
      split; [lia|]. split; [reflexivity | lia].
Qed.

Lemma round_half_even_integer (z : Z) : round_half_even (inject_Z z) = z.
Proof.
  unfold round_half_even. rewrite Qfloor_Z.
  rewrite ltb_true; [reflexivity|].
  setoid_replace (inject_Z z - inject_Z z) with 0 by ring. reflexivity.
Qed.

Lemma str_float_integer (n : Z) :
  (Z.abs n < 10 ^ 12)%Z -> str_float (inject_Z n) == inject_Z n.
Proof.
  intros Hn. unfold str_float.
  destruct (Qeq_bool (inject_Z n) 0) eqn:E0.
  - apply Qeq_bool_iff in E0. now rewrite E0.
  - assert (Hnz : n <> 0%Z).
    { intros ->. discriminate E0. }
    change (Qabs (inject_Z n)) with (inject_Z (Z.abs n)).
    set (fuel := (40 + Z.to_nat (Z.log2 (Z.abs (Qnum (inject_Z n))))
                  + Z.to_nat (Z.log2 (Z.pos (Qden (inject_Z n)))))%nat).
    destruct (normalise_integer fuel (Z.abs n) 0) as (j & Hj & Hnorm & Hb).
    + lia.
    + assert (10 ^ 11 <= 10 ^ Z.of_nat fuel)%Z.
      { apply Z.pow_le_mono_r; [lia|]. unfold fuel. lia. }
      nia.
    + rewrite Hnorm. rewrite round_half_even_integer.
      rewrite Z.add_0_l.
      assert (Hp : Qpower 10 j == inject_Z (10 ^ j)).
      { symmetry. apply (Zpower_Qpower 10 j Hj). }
      assert (Hpos : 0 < inject_Z (10 ^ j)).
      { change 0 with (inject_Z 0). rewrite <- Zlt_Qlt.
        apply Z.pow_pos_nonneg; lia. }
      rewrite Hp, inject_Z_mult.
      change 0 with (inject_Z 0). rewrite ltb_inject_Z.
      destruct (n <? 0)%Z eqn:Es.
      * apply Z.ltb_lt in Es. rewrite (Z.abs_neq n) by lia.
        rewrite inject_Z_opp. field. lra.
      * apply Z.ltb_ge in Es. rewrite (Z.abs_eq n) by lia.
        field. lra.
Qed.

End StrFloat.

(** X18.  For a column of whole numbers below [10^12] in absolute value
    the expression text carries the thresholds without loss: the two
    thresholds handed to the code block equal the observed minimum and
    maximum of the non-null values. *)
Theorem thresholds_of_integer_column (vals : list value) (v : Q) :
  In (PyNum v) vals ->
  (forall x, In (PyNum x) vals ->
     exists n : Z, x = inject_Z n /\ (Z.abs n < 10 ^ 12)%Z) ->
  exists cMin cMax minThresh maxThresh,
    RescalePollutantsToScores.min (RescalePollutantsToScores.not_None vals)
      = Ok cMin /\
    RescalePollutantsToScores.max (RescalePollutantsToScores.not_None vals)
      = Ok cMax /\
    RescalePollutantsToScores.thresholds vals = Ok (minThresh, maxThresh) /\
    minThresh == cMin /\ maxThresh == cMax.
Proof.
  intros Hv Hint.
  pose proof (Thresholds.not_None_In vals v Hv) as Hn.
  destruct (Thresholds.min_is_lower_bound _ _ Hn) as (cMin & Hmin & _).
  destruct (Thresholds.max_is_upper_bound _ _ Hn) as (cMax & Hmax & _).
  exists cMin, cMax. do 2 eexists.
  split; [assumption|]. split; [assumption|].
  split.
  { unfold RescalePollutantsToScores.thresholds. rewrite Hmin, Hmax.
    reflexivity. }
  split.
  - destruct (Hint cMin) as (n & -> & Hb).
    { apply ThresholdFacts.In_not_None, ThresholdFacts.min_In, Hmin. }
    now apply StrFloat.str_float_integer.
  - destruct (Hint cMax) as (n & -> & Hb).
    { apply ThresholdFacts.In_not_None, ThresholdFacts.max_In, Hmax. }
    now apply StrFloat.str_float_integer.
Qed.

Lemma thresholds_of_integer_column_witness :
  exists minThresh maxThresh,
    RescalePollutantsToScores.thresholds [PyNum 7; PyNone; PyNum (-3)]
      = Ok (minThresh, maxThresh) /\
    minThresh == -3 /\ maxThresh == 7.
Proof.
  assert (Hin : In (PyNum 7) [PyNum 7; PyNone; PyNum (-3)])
    by (left; reflexivity).
  assert (Hint : forall x, In (PyNum x) [PyNum 7; PyNone; PyNum (-3)] ->
            exists n : Z, x = inject_Z n /\ (Z.abs n < 10 ^ 12)%Z).
  { intros x [H | [H | [H | []]]]; try discriminate H; injection H as <-.
    - exists 7%Z. split; reflexivity.
    - exists (-3)%Z. split; reflexivity. }
  destruct (thresholds_of_integer_column _ 7 Hin Hint)
    as (a & b & c & d & Ha & Hb & Ht & Ea & Eb).
  injection Ha as <-. injection Hb as <-.
  exists c, d. split; [exact Ht|]. split; assumption.
Defined.

(** ** Further properties of the aggregation loop *)

(** The body of the inner [try] when every step of it succeeds. *)
Lemma process_ok (w : env) (myPt : point) (s : state)
    (n : Z) (eucDist : raster) (pop : Q) :
  Py.int (ptID myPt) = Ok n ->
  gis_eucDist myPt = Ok eucDist ->
  ptPop myPt = PyNum pop ->
  writable w tmpEucDist = true -> writable w tmpScore = true ->
  writable w tmpMax = true -> writable w maxRast = true ->
  writable w tmpSum = true -> writable w sumRast = true ->
  let score := rescale score_neg 8046.72 80467.2 eucDist in
  exists s',
    process w myPt s = (s', Ok tt) /\
    RunningMax s' = CellStatistics [score; RunningMax s] MAXIMUM /\
    RunningSum s' =
      CellStatistics [scale pop (over score 100); RunningSum s] SUM /\
    data s' maxRast = Some (RunningMax s') /\
    data s' sumRast = Some (RunningSum s') /\
    myFailList s' = myFailList s /\ failLog s' = failLog s.
Proof.
  intros Hn Hg Hp W1 W2 W3 W4 W5 W6 score.
  unfold process. unfold_statements. rewrite Hn, Hg, Hp.
  rewrite W1. cbn. rewrite W2. cbn. rewrite W3. cbn. rewrite W4. cbn.
  rewrite W5. cbn. rewrite W6. cbn.
  eexists. split; [reflexivity|]. cbn. repeat split; reflexivity.
Qed.

Lemma body_ok_true (w : env) (myPt : point) :
  body_ok w myPt = true ->
  exists n eucDist pop,
    Py.int (ptID myPt) = Ok n /\ gis_eucDist myPt = Ok eucDist /\
    ptPop myPt = PyNum pop /\
    writable w tmpEucDist = true /\ writable w tmpScore = true /\
    writable w tmpMax = true /\ writable w maxRast = true /\
    writable w tmpSum = true /\ writable w sumRast = true.
Proof.
  unfold body_ok.
  destruct (Py.int (ptID myPt)) as [n|]; [|discriminate].
  destruct (gis_eucDist myPt) as [eucDist|]; [|discriminate].
  destruct (ptPop myPt) as [|pop]; [discriminate|].
  intros H. repeat (apply andb_true_iff in H; destruct H as [H ?]).
  exists n, eucDist, pop. repeat split; assumption.
Qed.

(** The body raises whenever one of its steps fails. *)
Lemma process_not_ok (w : env) (myPt : point) (s : state) (n : Z) :
  Py.int (ptID myPt) = Ok n ->
  body_ok w myPt = false ->
  exists s1 e, process w myPt s = (s1, Raise e).
Proof.
  intros Hn. unfold body_ok. rewrite Hn.
  unfold process. unfold_statements. rewrite Hn.
  destruct (gis_eucDist myPt) as [eucDist|e0]; cbn; [|eauto].
  destruct (ptPop myPt) as [|pop].
  - intros _.
    destruct (writable w tmpEucDist); cbn; [|eauto].
    destruct (writable w tmpScore); cbn; [|eauto].
    destruct (writable w tmpMax); cbn; [|eauto].
    destruct (writable w maxRast); cbn; eauto.
  - destruct (writable w tmpEucDist); cbn; [|eauto].
    destruct (writable w tmpScore); cbn; [|eauto].
    destruct (writable w tmpMax); cbn; [|eauto].
    destruct (writable w maxRast); cbn; [|eauto].
    destruct (writable w tmpSum); cbn; [|eauto].
    destruct (writable w sumRast); cbn; [discriminate | eauto].
Qed.

(** One turn of the loop for a point whose identifier converts. *)
Lemma turn_recovers (w : env) (myPt : point) (s : state) (n : Z) :
  Py.int (ptID myPt) = Ok n ->
  exists s2,
    try_except (process w myPt) (handler myPt) s = (s2, Ok tt) /\
    myFailList s2 =
      myFailList s ++ (if body_ok w myPt then [] else id_text myPt).
Proof.
  intros Hn. destruct (body_ok w myPt) eqn:Eb.
  - destruct (body_ok_true w myPt Eb)
      as (n' & eucDist & pop & Hn' & Hg & Hp & W1 & W2 & W3 & W4 & W5 & W6).
    destruct (process_ok w myPt s n' eucDist pop Hn' Hg Hp W1 W2 W3 W4 W5 W6)
      as (s' & Hs & _ & _ & _ & _ & Hf & _).
    exists s'. unfold try_except. rewrite Hs. split; [reflexivity|].
    now rewrite Hf, app_nil_r.
  - destruct (process_not_ok w myPt s n Hn Eb) as (s1 & e & Hp).
    destruct (process_raises w myPt s s1 e n Hn Hp) as (Hf & _).
    destruct (handler_appends myPt s1 n Hn) as (s2 & Hh & Hf2 & _).
    exists s2. unfold try_except. rewrite Hp. split; [assumption|].
    unfold id_text. now rewrite Hn, Hf2, Hf.
Qed.

Lemma loop_recovers (w : env) (myPoints : list point) (s : state) :
  (forall myPt, In myPt myPoints -> exists n, Py.int (ptID myPt) = Ok n) ->
  exists s',
    for_myPoints w myPoints s = (s', Ok tt) /\
    myFailList s' =
      myFailList s ++
      flat_map (fun myPt => if body_ok w myPt then [] else id_text myPt)
        myPoints.
Proof.
  revert s. induction myPoints as [|myPt rest IH]; intros s Hall.
  - exists s. split; [reflexivity|]. cbn. now rewrite app_nil_r.
  - destruct (Hall myPt (or_introl eq_refl)) as [n Hn].
    destruct (turn_recovers w myPt s n Hn) as (s2 & Ht & Hf).
    destruct (IH s2) as (s' & Hl & Hf').
    { intros p Hp. apply Hall. now right. }
    exists s'. cbn [for_myPoints]. rewrite seq_eq, Ht.
    split; [assumption|].
    rewrite Hf', Hf. cbn [flat_map]. now rewrite app_assoc.
Qed.

(** X20.  When every identifier of the cursor converts to an integer the
    loop never leaves early: it ends normally for every list of points,
    and the failure list grows by exactly the identifiers of the points
    whose body raised, in cursor order. *)
Theorem loop_lists_exactly_the_failures
    (w : env) (myPoints : list point) (s : state) :
  (forall myPt, In myPt myPoints -> exists n, Py.int (ptID myPt) = Ok n) ->
  exists s',
    for_myPoints w myPoints s = (s', Ok tt) /\
    myFailList s' =
      myFailList s ++
      flat_map (fun myPt => if body_ok w myPt then [] else id_text myPt)
        myPoints.
Proof. apply loop_recovers. Qed.

Lemma loop_lists_exactly_the_failures_witness :
  exists s',
    for_myPoints (Sample.w_ok [])
      [Sample.pt_near; Sample.pt_badgeom; Sample.pt_nullpop]
      (start (Sample.w_ok [])) = (s', Ok tt) /\
    myFailList s' = ["9"%string; "8"%string].
Proof.
  destruct (loop_lists_exactly_the_failures (Sample.w_ok [])
              [Sample.pt_near; Sample.pt_badgeom; Sample.pt_nullpop]
              (start (Sample.w_ok []))) as (s' & Hl & Hf).
  - intros p [<- | [<- | [<- | []]]]; eexists; reflexivity.
  - exists s'. split; [exact Hl | exact Hf].
Defined.

(** ** Saving the subscores and the final score *)

Lemma save_subscores_dest (w : env) (s : state) :
  writable w (dest w "swDistance_subscore") = true ->
  writable w (dest w "swSum") = true ->
  writable w (dest w "swDensity_subscore") = true ->
  exists s',
    save_subscores w s =
      (s', Ok (dest w "swDistance_subscore", dest w "swDensity_subscore")) /\
    data s' (dest w "swDistance_subscore") = Some (RunningMax s) /\
    data s' (dest w "swSum") = Some (RunningSum s) /\
    data s' (dest w "swDensity_subscore")
      = Some (rescale score_pos 1000 100000 (RunningSum s)) /\
    myFailList s' = myFailList s /\ failLog s' = failLog s.
Proof.
  unfold dest, save_subscores. unfold_statements. unfold try_except.
  destruct (writable w (InWorkspace "swDistance_subscore")) eqn:E1;
    intros H1; rewrite ?E1, ?H1; cbn;
    destruct (writable w (InWorkspace "swSum")) eqn:E2;
    intros H2; rewrite ?E2, ?H2; cbn;
    destruct (writable w (InWorkspace "swDensity_subscore")) eqn:E3;
    intros H3; rewrite ?E3, ?H3; cbn;
    (eexists; split; [reflexivity|]; cbn; repeat split; reflexivity).
Qed.

(** X23.  The fall-back of the three subscore saves works: each of the
    rasters swDistance_subscore, swSum and swDensity_subscore is saved in
    the workspace when that succeeds and in the scratch geodatabase
    otherwise; when each can be saved at one of its two places the step
    ends normally with the running maximum, the running sum and the
    rescaled sum stored there. *)
Theorem subscores_fall_back (w : env) (s : state) :
  writable w (dest w "swDistance_subscore") = true ->
  writable w (dest w "swSum") = true ->
  writable w (dest w "swDensity_subscore") = true ->
  exists s',
    save_subscores w s =
      (s', Ok (dest w "swDistance_subscore", dest w "swDensity_subscore")) /\
    data s' (dest w "swDistance_subscore") = Some (RunningMax s) /\
    data s' (dest w "swSum") = Some (RunningSum s) /\
    data s' (dest w "swDensity_subscore")
      = Some (rescale score_pos 1000 100000 (RunningSum s)).
Proof.
  intros H1 H2 H3.
  destruct (save_subscores_dest w s H1 H2 H3) as (s' & Hs & A & B & C & _).
  exists s'. auto.
Qed.

Lemma subscores_fall_back_witness :
  exists s',
    save_subscores
      {| out_fname := "swScore"; snapRast := const 1; swPts := Ok [];
         datasets0 := fun _ => None;
         writable := fun p => match p with
                              | InWorkspace _ => false
                              | _ => true
                              end |}
      (start (Sample.w_ok []))
    = (s', Ok (InScratchKeep "swDistance_subscore",
               InScratchKeep "swDensity_subscore")) /\
    data s' (InScratchKeep "swDistance_subscore") = Some (const 0).
Proof.
  destruct (subscores_fall_back
              {| out_fname := "swScore"; snapRast := const 1; swPts := Ok [];
                 datasets0 := fun _ => None;
                 writable := fun p => match p with
                                      | InWorkspace _ => false
                                      | _ => true
                                      end |}
              (start (Sample.w_ok [])) eq_refl eq_refl eq_refl)
    as (s' & Hs & A & _).
  exists s'. split; [exact Hs | exact A].
Defined.

(** ** HydroRaster.py and GetHeadwatersScore.py *)

Lemma Qmax_ones (x y : Q) : x == 1 -> y == 1 -> Qmax x y == 1.
Proof.
  intros Hx Hy. destruct (Q.max_dec x y) as [E | E]; now rewrite E.
Qed.

(** X25.  The hydro raster of a geodatabase: when the three burn rasters
    hold 1 in their data cells, a cell of the combined raster is NoData
    exactly when it is NoData in all three, and holds 1 otherwise. *)
Theorem hydro_raster_burn (lineburnRD polyburnRD cntrburnRD : raster) (i : nat) :
  (forall r x, In r [lineburnRD; polyburnRD; cntrburnRD] ->
               r i = Some x -> x == 1) ->
  let out := HydroRaster.HydroRaster lineburnRD polyburnRD cntrburnRD in
  (out i = None <->
   lineburnRD i = None /\ polyburnRD i = None /\ cntrburnRD i = None) /\
  (forall c, out i = Some c -> c == 1).
Proof.
  intros Hb out. unfold out, HydroRaster.HydroRaster, CellStatistics, data_at.
  cbn [flat_map].
  assert (Hl := Hb lineburnRD). assert (Hp := Hb polyburnRD).
  assert (Hc := Hb cntrburnRD). cbn [In] in Hl, Hp, Hc.
  destruct (lineburnRD i) as [a|], (polyburnRD i) as [b|],
    (cntrburnRD i) as [c|]; cbn; split;
    try (split; [discriminate | intros (? & ? & ?); discriminate]);
    try (split; auto; fail);
    intros x [= <-];
    repeat apply Qmax_ones; eauto 6.
Qed.

Lemma hydro_raster_burn_witness :
  exists c,
    HydroRaster.HydroRaster (fun _ => None) (const 1) (fun _ => None) 0%nat
    = Some c /\ c == 1.
Proof.
  eexists. split; [reflexivity|].
  apply (hydro_raster_burn (fun _ => None) (const 1) (fun _ => None) 0%nat);
    [|reflexivity].
  intros r x [<- | [<- | [<- | []]]]; cbn; intros [= <-]. reflexivity.
Defined.

(** X26.  The headwaters score of a basin has no NoData: a cell outside
    the rasterized headwater catchments scores 0, a cell inside keeps
    the catchment score, so with the score 100 of the HeadScore field
    every cell is 0 or 100. *)
Theorem headwaters_score_total (tmpCatchRast : raster) (i : nat) :
  (forall x, tmpCatchRast i = Some x -> x == 100) ->
  exists c, GetHeadwatersScore.finCatch tmpCatchRast i = Some c /\
            (tmpCatchRast i = None -> c = 0) /\
            (tmpCatchRast i <> None -> c == 100).
Proof.
  intros H. unfold GetHeadwatersScore.finCatch, GetHeadwatersScore.eq1,
    Con, IsNull, const.
  destruct (tmpCatchRast i) as [x|]; cbn.
  - exists x. split; [reflexivity|]. split; [discriminate|].
    intros _. now apply H.
  - exists 0. split; [reflexivity|]. split; [reflexivity|].
    intros E. now elim E.
Qed.

Lemma headwaters_score_total_witness :
  exists c,
    GetHeadwatersScore.finCatch
      (fun i => match i with O => Some 100 | S _ => None end) 1%nat = Some c /\
    c = 0.
Proof.
  destruct (headwaters_score_total
              (fun i => match i with O => Some 100 | S _ => None end) 1%nat)
    as (c & Hc & H0 & _).
  - intros x E. discriminate E.
  - exists c. split; [exact Hc | exact (H0 eq_refl)].
Defined.
